(** * pdf-ocr-app.py: a shallow embedding and its properties

    The program is a linear pipeline: rasterize a PDF, clean and deskew each
    page image, run OCR on it, write one text file per page into a temporary
    directory and bundle the text files into a zip archive.

    - Python [str] values are [string]s and Python [float]s are binary64
      primitive floats.
    - Paths are POSIX paths; [os.path.join], [os.path.basename] and
      [Path.stem] (as in Python 3.8 to 3.13) are written out on strings.
    - The file system is a finite map from path strings to files, standard
      output a list of lines; a computation maps a world to a result or an
      exception and the world it leaves.
    - OpenCV, pdf2image, PIL and pytesseract are interfaces whose operations
      are functions of their arguments; writing a file never fails.
    - The name of the directory [tempfile] creates is an argument of the
      run. *)

From Stdlib Require Import Ascii Floats.PrimFloat Floats.SpecFloat Floats.FloatOps
  Floats.FloatAxioms.
From stdpp Require Import gmap strings list fin_maps pretty.

(** ** Python string operations used by the program and by the path modules *)

Module str.

(** [c in s] for a one-character [c]. *)
Fixpoint has_char (c : ascii) (s : string) : bool :=
  match s with
  | EmptyString => false
  | String a r => if decide (a = c) then true else has_char c r
  end.

(** [s.split(sep)] for a one-character separator: never the empty list. *)
Fixpoint split (sep : ascii) (s : string) : list string :=
  match s with
  | EmptyString => [EmptyString]
  | String a r =>
      if decide (a = sep) then EmptyString :: split sep r
      else match split sep r with
           | h :: t => String a h :: t
           | [] => [String a EmptyString]
           end
  end.

(** [s.rfind(c)]: the index of the last occurrence, [None] for Python's -1. *)
Fixpoint rfind (c : ascii) (s : string) : option nat :=
  match s with
  | EmptyString => None
  | String a r =>
      match rfind c r with
      | Some i => Some (S i)
      | None => if decide (a = c) then Some 0 else None
      end
  end.

(** [s[:i]]. *)
Definition upto (i : nat) (s : string) : string := String.substring 0 i s.

(** [s[i:]]. *)
Fixpoint from (i : nat) (s : string) : string :=
  match i, s with
  | 0, _ => s
  | S j, EmptyString => EmptyString
  | S j, String _ r => from j r
  end.

(** [s.startswith(p)]. *)
Definition startswith (p s : string) : bool := String.prefix p s.

(** [s.endswith(c)] for a one-character [c]. *)
Fixpoint endswith (c : ascii) (s : string) : bool :=
  match s with
  | EmptyString => false
  | String a EmptyString => if decide (a = c) then true else false
  | String _ r => endswith c r
  end.

(** [s.lower()] on the ASCII range. *)
Definition lower_char (a : ascii) : ascii :=
  let n := Ascii.nat_of_ascii a in
  if (65 <=? n)%nat && (n <=? 90)%nat then Ascii.ascii_of_nat (n + 32) else a.

Fixpoint lower (s : string) : string :=
  match s with
  | EmptyString => EmptyString
  | String a r => String (lower_char a) (lower r)
  end.

(** [needle in hay]. *)
Definition contains (needle hay : string) : bool :=
  match String.index 0 needle hay with
  | Some _ => true
  | None => false
  end.

End str.

(** ** posixpath: [os.path.join] and [os.path.basename] *)

Module os_path.

Definition sep : ascii := "/"%char.

(** [os.path.join(a, b)]: an absolute [b] replaces [a]; otherwise [b] is
    appended, after a separator unless [a] is empty or already ends in one. *)
Definition join (a b : string) : string :=
  if str.startswith (String sep EmptyString) b then b
  else if decide (a = EmptyString) then a +:+ b
  else if str.endswith sep a then a +:+ b
  else a +:+ String sep b.

(** [os.path.basename(p)]: [i = p.rfind('/') + 1; return p[i:]]. *)
Definition basename (p : string) : string :=
  match str.rfind sep p with
  | Some i => str.from (S i) p
  | None => p
  end.

End os_path.

(** ** pathlib: [Path(p).name] and [Path(p).stem] on POSIX paths *)

Module pathlib.

(** The components of a path: the pieces between separators, with empty
    pieces and [.] pieces dropped (the root, if any, is kept apart and is
    never a name). *)
Definition parts (p : string) : list string :=
  filter (λ x, x ≠ EmptyString ∧ x ≠ ".") (str.split os_path.sep p).

(** [Path(p).name]: the final component, the empty string when there is none. *)
Definition name (p : string) : string := List.last (parts p) EmptyString.

(** [Path(p).stem]: [i = name.rfind('.')]; [name[:i]] if [0 < i < len(name) - 1],
    else [name]. *)
Definition stem (p : string) : string :=
  let nm := name p in
  match str.rfind "."%char nm with
  | Some i =>
      if (0 <? i)%nat && (i <? String.length nm - 1)%nat then str.upto i nm
      else nm
  | None => nm
  end.

End pathlib.

(** ** Command line (lines 170-183) *)

(** The result of [parser.parse_args()]: the positional [pdf_path] and the
    optional [--output]/[-o], whose default is [None]. *)
Record Namespace := { pdf_path : string; output : option string }.

(** Lines 181-183: the output path after the default has been filled in. *)
Definition output_path (args : Namespace) : string :=
  match output args with
  | None => pathlib.stem (pdf_path args) +:+ "_ocr.zip"
  | Some o => o
  end.

(** ** The image cleaner's angle logic (lines 102-107) *)

(** Lines 103-104: [if angle < -45: angle = 90 + angle]. *)
Definition normalize_angle (angle : float) : float :=
  if (angle <? -45)%float then (90 + angle)%float else angle.

(** Line 107: [abs(angle) > 0.5]. *)
Definition significant (angle : float) : bool := (0.5 <? abs angle)%float.

(** ** OpenCV, as the program uses it *)

Inductive ColorConversionCode := COLOR_BGR2GRAY | COLOR_BGR2RGB.
Inductive ThresholdType := THRESH_BINARY | THRESH_BINARY_INV.
Inductive RetrievalMode := RETR_EXTERNAL | RETR_LIST.
Inductive ApproximationMode := CHAIN_APPROX_NONE | CHAIN_APPROX_SIMPLE.
Inductive InterpolationFlag := INTER_NEAREST | INTER_LINEAR | INTER_CUBIC.
Inductive BorderType := BORDER_CONSTANT | BORDER_REPLICATE.
Inductive AdaptiveMethod := ADAPTIVE_THRESH_MEAN_C | ADAPTIVE_THRESH_GAUSSIAN_C.

(** The [cv2] functions called by [clean_and_deskew]. Each is a function of
    its arguments: the numerical routines are taken to be deterministic. *)
Class Cv2 := {
  Mat : Type;
  Contour : Type;
  Hierarchy : Type;
  Matrix : Type;
  (** what [cv2.imread] makes of a file's bytes; [None] when it cannot decode *)
  imdecode : string → option Mat;
  (** [img.shape[:2]], that is [(h, w)] *)
  shape : Mat → Z * Z;
  cvtColor : Mat → ColorConversionCode → Mat;
  threshold : Mat → float → float → ThresholdType → float * Mat;
  findContours : Mat → RetrievalMode → ApproximationMode → list Contour * Hierarchy;
  contourArea : Contour → float;
  (** [((cx, cy), (w, h), angle)] *)
  minAreaRect : Contour → (float * float) * (float * float) * float;
  getRotationMatrix2D : Z * Z → float → float → Matrix;
  warpAffine : Mat → Matrix → Z * Z → InterpolationFlag → BorderType → Mat;
  adaptiveThreshold :
    Mat → float → AdaptiveMethod → ThresholdType → Z → float → Mat
}.

(** The other libraries and the host: pdf2image, PIL, pytesseract, [sys]. *)
Class Host `{Cv2} := {
  Image : Type;
  (** the pages pdf2image renders from a PDF's bytes; [None] when it raises *)
  pdf_pages : string → option (list Image);
  (** the bytes [img.save] writes for a [.png] path *)
  png_encode : Image → string;
  (** [pytesseract.image_to_string]; [None] when the engine fails on the image *)
  image_to_string : Mat → option string;
  (** [pytesseract.get_tesseract_version()]; [None] when it raises
      [TesseractNotFoundError] *)
  get_tesseract_version : option string;
  (** [str(e)] for the exception [convert_from_path(None)] raises, if any *)
  poppler_probe : option string;
  sys_platform : string
}.

(** [max(l, key=key)] on a non-empty list [first :: rest]: the first element
    whose key no later element exceeds. *)
Fixpoint max_by {A : Type} (key : A → float) (best : A) (l : list A) : A :=
  match l with
  | [] => best
  | x :: r =>
      if (key best <? key x)%float then max_by key x r else max_by key best r
  end.

(** ** The world: files and standard output *)

#[local] Set Warnings "-register-all".

(** A file is a sequence of bytes; a zip archive is kept as the ordered list
    of its entries, each an archive name and the stored file. *)
Inductive file :=
  | Bytes (data : string)
  | ZipArchive (entries : list (string * file)).

Record world := World { files : gmap string file; stdout : list string }.

Inductive exception :=
  | PDFError
  | Cv2Error
  | TesseractError
  | FileNotFoundError (path : string)
  | SystemExit (code : Z).

(** A computation runs in a world and ends in a result or a raised exception;
    the effects made before an exception stay. *)
Definition IO (A : Type) : Type := world → (exception + A) * world.

Global Instance io_ret : MRet IO := λ A a w, (inr a, w).

Global Instance io_bind : MBind IO := λ A B k m w,
  match m w with
  | (inr a, w') => k a w'
  | (inl e, w') => (inl e, w')
  end.

Definition raise {A : Type} (e : exception) : IO A := λ w, (inl e, w).

Definition print (line : string) : IO unit :=
  λ w, (inr tt, {| files := files w; stdout := stdout w ++ [line] |}).

Definition read_file (path : string) : IO file :=
  λ w, match files w !! path with
       | Some f => (inr f, w)
       | None => (inl (FileNotFoundError path), w)
       end.

Definition write_file (path : string) (f : file) : IO unit :=
  λ w, (inr tt, {| files := <[path := f]> (files w); stdout := stdout w |}).

Definition sys_exit {A : Type} (code : Z) : IO A := raise (SystemExit code).

(** The paths inside directory [d]: those that extend [d] by a separator. *)
Definition inside (d p : string) : bool :=
  str.startswith (os_path.join d EmptyString) p.

(** [with tempfile.TemporaryDirectory() as temp_dir: body]. [temp_dir] is the
    name the host chose for the new directory; on the way out, normally or
    by an exception, the directory and everything inside it are removed. *)
Definition TemporaryDirectory {A : Type} (temp_dir : string) (body : IO A) : IO A :=
  λ w, match body w with
       | (r, w') =>
           (r, {| files := filter (λ kv, inside temp_dir kv.1 = false) (files w');
                  stdout := stdout w' |})
       end.

(** ** Page files *)

(** The file names of a page: [f"page_{page_num}.png"] and [f"page_{page_num}.txt"]. *)
Definition page_file (page_num : nat) (ext : string) : string :=
  "page_" +:+ pretty page_num +:+ "." +:+ ext.

(** The archive entries for the page texts, in page order: the text of the
    page at index [j] (counting from zero) is stored as [page_(j+1).txt]. *)
Definition page_entries (texts : list string) : list (string * file) :=
  imap (λ j text, (page_file (j + 1) "txt", Bytes text)) texts.

(** The progress lines printed for pages [i + 1] to [i + n]. *)
Definition progress_lines (total i n : nat) : list string :=
  (λ k, "Processing page " +:+ pretty k +:+ "/" +:+ pretty total) <$> seq (i + 1) n.

(** The text file paths collected for pages [i + 1] to [i + n]. *)
Definition text_paths (temp_dir : string) (i n : nat) : list string :=
  (λ k, os_path.join temp_dir (page_file k "txt")) <$> seq (i + 1) n.

(** ** The program *)

Section program.

Context {cv : Cv2} {host : Host}.

(** [cv2.imread(path)]: [None] when the file is missing or cannot be decoded. *)
Definition imread (path : string) : IO (option Mat) :=
  λ w, match files w !! path with
       | Some (Bytes data) => (inr (imdecode data), w)
       | _ => (inr None, w)
       end.

(** Lines 95-117: the image handed to the adaptive threshold. *)
Definition deskew (img gray : Mat) (contours : list Contour) : Mat :=
  match contours with
  | first :: rest =>
      let largest_contour := max_by contourArea first rest in
      let rect := minAreaRect largest_contour in
      let angle := normalize_angle rect.2 in
      if significant angle then
        let '(h, w) := shape img in
        let center := ((w `div` 2)%Z, (h `div` 2)%Z) in
        let M := getRotationMatrix2D center angle 1.0%float in
        warpAffine gray M (w, h) INTER_CUBIC BORDER_REPLICATE
      else gray
  | [] => gray
  end.

(** Lines 85-125, on the image [cv2.imread] returned. *)
Definition clean (img : Mat) : Mat :=
  let gray := cvtColor img COLOR_BGR2GRAY in
  let binary := (threshold gray 128 255 THRESH_BINARY_INV).2 in
  let contours := (findContours binary RETR_LIST CHAIN_APPROX_SIMPLE).1 in
  let deskewed := deskew img gray contours in
  adaptiveThreshold deskewed 255 ADAPTIVE_THRESH_GAUSSIAN_C THRESH_BINARY 11 2.

(** Lines 78-125. [cv2.cvtColor] raises on the [None] of a failed read. *)
Definition clean_and_deskew (image_path : string) : IO Mat :=
  img ← imread image_path;
  match img with
  | Some img => mret (clean img)
  | None => raise Cv2Error
  end.

(** Lines 132-134, the loop: [entries] are the entries written so far. An
    exception leaves the archive with them, as closing the [ZipFile] does. *)
Fixpoint zip_write_all (output_zip_path : string) (entries : list (string * file))
    (file_paths : list string) : IO unit :=
  match file_paths with
  | [] => mret tt
  | file_path :: rest =>
      f ← read_file file_path;
      let entries' := entries ++ [(os_path.basename file_path, f)] in
      write_file output_zip_path (ZipArchive entries');;
      zip_write_all output_zip_path entries' rest
  end.

(** Lines 128-134. Opening in mode ['w'] truncates the output file. *)
Definition create_zip (file_paths : list string) (output_zip_path : string) : IO unit :=
  write_file output_zip_path (ZipArchive []);;
  zip_write_all output_zip_path [] file_paths.

(** Line 48: [convert_from_path(pdf_path)]. *)
Definition convert_from_path (pdf_path : string) : IO (list Image) :=
  λ w, match files w !! pdf_path with
       | Some (Bytes data) =>
           match pdf_pages data with
           | Some images => (inr images, w)
           | None => (inl PDFError, w)
           end
       | _ => (inl PDFError, w)
       end.

(** Line 64. *)
Definition ocr (cleaned_img : Mat) : IO string :=
  match image_to_string cleaned_img with
  | Some text => mret text
  | None => raise TesseractError
  end.

(** Lines 52-70: the loop over [enumerate(images)] from index [i] on, with
    [total = len(images)] and the [text_files] collected so far. *)
Fixpoint process_pages (temp_dir : string) (total i : nat) (images : list Image)
    (text_files : list string) : IO (list string) :=
  match images with
  | [] => mret text_files
  | img :: rest =>
      let page_num := i + 1 in
      print ("Processing page " +:+ pretty page_num +:+ "/" +:+ pretty total);;
      let img_path := os_path.join temp_dir (page_file page_num "png") in
      write_file img_path (Bytes (png_encode img));;
      cleaned_img ← clean_and_deskew img_path;
      text ← ocr cleaned_img;
      let text_file_path := os_path.join temp_dir (page_file page_num "txt") in
      write_file text_file_path (Bytes text);;
      process_pages temp_dir total (i + 1) rest (text_files ++ [text_file_path])
  end.

(** Lines 36-75. *)
Definition process_pdf (temp_dir pdf_path output_zip_path : string) : IO unit :=
  TemporaryDirectory temp_dir (
    print ("Converting PDF: " +:+ pdf_path);;
    images ← convert_from_path pdf_path;
    text_files ← process_pages temp_dir (length images) 0 images [];
    create_zip text_files output_zip_path);;
  print ("OCR processing complete. Results saved to " +:+ output_zip_path).

(** Lines 137-144. *)
Definition check_tesseract_installed : bool :=
  match get_tesseract_version with
  | Some _ => true
  | None => false
  end.

(** Lines 147-186, with [args] what [parse_args] returns. *)
Definition main (temp_dir : string) (args : Namespace) : IO unit :=
  (if negb check_tesseract_installed then
     print "ERROR: Tesseract OCR is not installed or not in PATH.";;
     print "Please install Tesseract: https://github.com/tesseract-ocr/tesseract";;
     sys_exit 1
   else mret tt);;
  match poppler_probe with
  | Some e =>
      if str.contains "poppler" (str.lower e) then
        print "ERROR: Poppler is not installed (required by pdf2image).";;
        (if str.startswith "win" sys_platform then
           print "Download from: https://github.com/oschwartz10612/poppler-windows/releases"
         else if str.startswith "darwin" sys_platform then
           print "Install with: brew install poppler"
         else print "Install with: apt-get install poppler-utils");;
        sys_exit 1
      else mret tt
  | None => mret tt
  end;;
  process_pdf temp_dir (pdf_path args) (output_path args).

(** The exit status of the interpreter: [0] when the script runs to its end,
    the code of a [SystemExit], [1] for any other uncaught exception. *)
Definition exit_status (r : exception + unit) : Z :=
  match r with
  | inr _ => 0
  | inl (SystemExit code) => code
  | inl _ => 1
  end.

Definition run (temp_dir : string) (args : Namespace) (w : world) : Z * world :=
  match main temp_dir args w with
  | (r, w') => (exit_status r, w')
  end.

(** The text of a page: what OCR reads in the cleaned image of the page's
    PNG rendering; [None] when reading, cleaning or OCR fails. *)
Definition page_text (img : Image) : option string :=
  m ← imdecode (png_encode img); image_to_string (clean m).

(** The texts of the pages of the PDF at [pdf_path]; [None] when the PDF
    cannot be rendered or some page cannot be read. *)
Definition pdf_texts (w : world) (pdf_path : string) : option (list string) :=
  match files w !! pdf_path with
  | Some (Bytes data) => images ← pdf_pages data; mapM page_text images
  | _ => None
  end.

(** The world after one turn of the loop has saved the image of page [i + 1]. *)
Definition saved (temp : string) (total i : nat) (img : Image) (w : world) : world :=
  {| files := <[os_path.join temp (page_file (i + 1) "png") := Bytes (png_encode img)]> (files w);
     stdout := stdout w ++ progress_lines total i 1 |}.

(** The world after the turn has written the text of the page too. *)
Definition written (temp : string) (total i : nat) (img : Image) (text : string)
    (w : world) : world :=
  {| files := <[os_path.join temp (page_file (i + 1) "txt") := Bytes text]>
                (files (saved temp total i img w));
     stdout := stdout w ++ progress_lines total i 1 |}.

End program.

(** ** A small concrete host

    One-row images whose pixels are the byte values of the file; a PDF whose
    bytes are its pages, one byte each; an OCR engine that reads the pixels
    back as characters and fails on a page holding the byte [!]. It is used
    to run the program on concrete inputs. *)

Module sample.

Definition pixels (data : string) : list Z :=
  (λ a, Z.of_nat (nat_of_ascii a)) <$> String.list_ascii_of_string data.

Definition chars (m : list Z) : string :=
  String.string_of_list_ascii ((λ p, ascii_of_nat (Z.to_nat p)) <$> m).

#[local] Instance cv2 : Cv2 := {|
  Mat := list Z;
  Contour := list Z;
  Hierarchy := unit;
  Matrix := float;
  imdecode data := if decide (data = EmptyString) then None else Some (pixels data);
  shape m := (1%Z, Z.of_nat (length m));
  cvtColor m _ := m;
  threshold m thresh maxval _ := (thresh, (λ p, if (128 <? p)%Z then 0 else 255)%Z <$> m);
  findContours binary _ _ := (if forallb (Z.eqb 0) binary then [] else [binary], tt);
  contourArea c := 1%float;
  minAreaRect c := ((0, 0), (0, 0), -60)%float;
  getRotationMatrix2D center angle scale := angle;
  warpAffine m M size _ _ := reverse m;
  adaptiveThreshold m maxval _ _ _ _ := m
|}.

#[local] Instance host (tesseract : option string) : Host := {|
  Image := ascii;
  pdf_pages data := Some (String.list_ascii_of_string data);
  png_encode img := String img EmptyString;
  image_to_string m := if bool_decide (33%Z ∈ m) then None else Some (chars m);
  get_tesseract_version := tesseract;
  poppler_probe := Some "expected str, bytes or os.PathLike object, not NoneType";
  sys_platform := "linux"
|}.

Definition white : string := String (ascii_of_nat 255) EmptyString.

Definition disk : gmap string file :=
  {[ "in/ab.pdf" := Bytes "ab"; "in/bad.pdf" := Bytes "a!b"; "in/empty.pdf" := Bytes "";
     "scan.png" := Bytes "a"; "blank.png" := Bytes white ]}.

Definition w0 : world := {| files := disk; stdout := [] |}.

Definition args : Namespace := {| pdf_path := "in/ab.pdf"; output := None |}.

(** The directory [mkdtemp] made for the run. *)
Definition tmp : string := "/tmp/tmpk3x9".

#[local] Instance installed : Host := host (Some "5.3.0").

#[local] Instance missing : Host := host None.

End sample.

Example stem_doc : pathlib.stem "dir/doc.pdf" = "doc".
Proof. reflexivity. Qed.

Example stem_tar : pathlib.stem "/a/b/x.tar.gz" = "x.tar".
Proof. reflexivity. Qed.

Example stem_hidden : pathlib.stem "a/.bashrc" = ".bashrc".
Proof. reflexivity. Qed.

Example stem_dotdir : pathlib.stem "a/b/." = "b".
Proof. reflexivity. Qed.

Example basename_join : os_path.basename (os_path.join "/tmp/x" "page_1.txt") = "page_1.txt".
Proof. reflexivity. Qed.


(** ** Package bootstrap (lines 10-26) *)

Module bootstrap.

(** Lines 12-17: the dict, in insertion order, from module name to the
    package that provides it. *)
Definition required_packages : list (string * string) :=
  [("pytesseract", "pytesseract"); ("cv2", "opencv-python");
   ("pdf2image", "pdf2image"); ("PIL", "Pillow")].

(** The interpreter's environment: the top-level modules that can be
    imported, and the lines printed. *)
Record env := Env { modules : gset string; printed : list string }.

(** How the function ends: it returns, or [subprocess.check_call] raises for
    a package. *)
Inductive outcome :=
  | Returned
  | CalledProcessError (package : string).

Section install.

(** [pip install package], run where [modules] can be imported: whether it
    exited with status 0, and the modules that can be imported afterwards. *)
Variable pip : string → gset string → bool * gset string.

(** Lines 19-22, the loop over the items of the dict. *)
Fixpoint install_missing (packages : list (string * string)) (e : env) : outcome * env :=
  match packages with
  | [] => (Returned, e)
  | (module_name, package) :: rest =>
      if decide (module_name ∈ modules e) then install_missing rest e
      else
        let lines := printed e ++ ["Installing required package: " +:+ package] in
        match pip package (modules e) with
        | (true, ms) => install_missing rest {| modules := ms; printed := lines |}
        | (false, ms) => (CalledProcessError package, {| modules := ms; printed := lines |})
        end
  end.

(** Lines 10-22. *)
Definition check_and_install_packages (e : env) : outcome * env :=
  install_missing required_packages e.

End install.

(** An installer that always succeeds and provides the four modules. *)
Definition sample_pip (package : string) (ms : gset string) : bool * gset string :=
  (true, ms ∪ {[ "pytesseract"; "cv2"; "pdf2image"; "PIL" ]}).

(** An installer that cannot reach the package index. *)
Definition offline_pip (package : string) (ms : gset string) : bool * gset string :=
  (false, ms).

End bootstrap.

(** The sample host on a machine without the PDF renderer, where
    [convert_from_path(None)] fails with pdf2image's message. *)
Module sample_without_poppler.

#[local] Existing Instance sample.cv2.

#[local] Instance host (platform : string) : Host := {|
  Image := ascii;
  pdf_pages data := None;
  png_encode img := String img EmptyString;
  image_to_string m := Some (sample.chars m);
  get_tesseract_version := Some "5.3.0";
  poppler_probe := Some "Unable to get page count. Is Poppler installed and in PATH?";
  sys_platform := platform
|}.

End sample_without_poppler.

(** The exception a page that does not read well ends the loop with:
    [cv2.error] when the page image cannot be read back, the OCR engine's
    error otherwise. *)
Definition page_error {cv : Cv2} {host : Host} (img : Image) : exception :=
  match imdecode (png_encode img) with
  | Some _ => TesseractError
  | None => Cv2Error
  end.

(** * Properties *)

(** ** Strings and paths *)

Section string_lemmas.

Implicit Types (c a : ascii) (s t : string).

Lemma split_nonempty c s : str.split c s ≠ [].
Proof.
  destruct s as [|a r]; simpl; [done|].
  case_decide; [done|]. by destruct (str.split c r).
Qed.

Lemma split_no_sep c s : str.has_char c s = false → str.split c s = [s].
Proof.
  induction s as [|a r IH]; simpl; [done|].
  case_decide; [done|]. intros Hr. by rewrite (IH Hr).
Qed.

Lemma split_snoc c s t :
  str.has_char c t = false →
  str.split c (s +:+ String c t) = str.split c s ++ [t].
Proof.
  intros Ht. induction s as [|a r IH]; simpl.
  - rewrite decide_True by done. by rewrite split_no_sep.
  - case_decide; [by rewrite IH|].
    rewrite IH. pose proof (split_nonempty c r).
    by destruct (str.split c r).
Qed.

Lemma rfind_no_char c s : str.has_char c s = false → str.rfind c s = None.
Proof.
  induction s as [|a r IH]; simpl; [done|].
  case_decide; [done|]. intros Hr. by rewrite (IH Hr).
Qed.

Lemma rfind_snoc c s t :
  str.has_char c t = false →
  str.rfind c (s +:+ String c t) = Some (String.length s).
Proof.
  intros Ht. induction s as [|a r IH]; simpl.
  - rewrite rfind_no_char by done. by rewrite decide_True.
  - by rewrite IH.
Qed.

Lemma upto_app s t : str.upto (String.length s) (s +:+ t) = s.
Proof.
  unfold str.upto. induction s as [|a r IH]; simpl.
  - by destruct t.
  - by rewrite IH.
Qed.

Lemma length_append s t :
  String.length (s +:+ t) = String.length s + String.length t.
Proof. induction s as [|a r IH]; simpl; [done|]. by rewrite IH. Qed.

Lemma append_assoc s t u : (s +:+ t) +:+ u = s +:+ (t +:+ u).
Proof.
  induction s as [|a r IH]; [done|].
  change (String a ((r +:+ t) +:+ u) = String a (r +:+ (t +:+ u))). by rewrite IH.
Qed.

Lemma has_char_cons c a s :
  str.has_char c (String a s) = if decide (a = c) then true else str.has_char c s.
Proof. done. Qed.

Lemma has_char_app c s t :
  str.has_char c (s +:+ t) = str.has_char c s || str.has_char c t.
Proof.
  induction s as [|a r IH]; simpl; [done|]. by case_decide.
Qed.

Lemma endswith_snoc c s : str.endswith c s = true → ∃ r, s = r +:+ String c EmptyString.
Proof.
  induction s as [|a r IH]; simpl; [done|].
  destruct r as [|b r'].
  - case_decide; [|done]. subst. by exists EmptyString.
  - intros Hr. destruct (IH Hr) as [q Hq]. exists (String a q). by rewrite Hq.
Qed.

End string_lemmas.

Section pathlib_lemmas.

(** The final component is what follows the last separator, provided it is
    a proper name. *)
Lemma name_snoc (d nm : string) :
  str.has_char os_path.sep nm = false → nm ≠ EmptyString → nm ≠ "." →
  pathlib.name (d +:+ String os_path.sep nm) = nm.
Proof.
  intros Hsep Hne Hdot. unfold pathlib.name, pathlib.parts.
  rewrite split_snoc by done. rewrite filter_app, filter_cons_True by done.
  rewrite filter_nil. apply last_last.
Qed.

Lemma name_plain (nm : string) :
  str.has_char os_path.sep nm = false → nm ≠ EmptyString → nm ≠ "." →
  pathlib.name nm = nm.
Proof.
  intros Hsep Hne Hdot. unfold pathlib.name, pathlib.parts.
  rewrite split_no_sep by done. by rewrite filter_cons_True.
Qed.

(** The stem of [base.ext], whatever the directory part. *)
Lemma stem_of_name (p base ext : string) :
  pathlib.name p = base +:+ String "." ext →
  base ≠ EmptyString → ext ≠ EmptyString → str.has_char "." ext = false →
  pathlib.stem p = base.
Proof.
  intros Hname Hb He Hdot. unfold pathlib.stem. rewrite Hname.
  rewrite rfind_snoc by done.
  rewrite length_append. simpl.
  destruct base as [|b0 base']; [done|]. destruct ext as [|e0 ext']; [done|].
  simpl String.length.
  replace (0 <? S (String.length base'))%nat with true by (symmetry; apply Nat.ltb_lt; lia).
  replace (S (String.length base') <? _)%nat with true by (symmetry; apply Nat.ltb_lt; lia).
  simpl andb. cbv iota.
  apply (upto_app (String b0 base')).
Qed.

End pathlib_lemmas.

(** ** The default output path *)

Lemma output_path_default (p : string) :
  output_path {| pdf_path := p; output := None |} = pathlib.stem p +:+ "_ocr.zip".
Proof. done. Qed.

Lemma output_path_given (p o : string) :
  output_path {| pdf_path := p; output := Some o |} = o.
Proof. done. Qed.

(** C1, as the code has it: when [--output]/[-o] is not given, the output
    path is the stem of the input's final component followed by [_ocr.zip].
    The directory part of the input is dropped, so the archive is named
    relative to the current directory: for an input [dir/base.ext], with or
    without a directory part, the output is [base_ocr.zip]. *)
Theorem default_output_is_stem (pre base ext : string) :
  pre = EmptyString ∨ str.endswith os_path.sep pre = true →
  base ≠ EmptyString → str.has_char os_path.sep base = false →
  ext ≠ EmptyString → str.has_char os_path.sep ext = false →
  str.has_char "." ext = false →
  output_path {| pdf_path := pre +:+ base +:+ "." +:+ ext; output := None |}
  = base +:+ "_ocr.zip".
Proof.
  intros Hpre Hb Hbsep He Hesep Hedot. unfold output_path. simpl.
  change ("." +:+ ext) with (String "." ext).
  f_equal. apply (stem_of_name _ base ext); try done.
  assert (Hnm : str.has_char os_path.sep (base +:+ String "." ext) = false).
  { rewrite has_char_app, Hbsep. exact Hesep. }
  assert (Hne : base +:+ String "." ext ≠ EmptyString) by (by destruct base).
  assert (Hnd : base +:+ String "." ext ≠ ".").
  { destruct base as [|b0 [|b1 base']]; [done| |done]. by destruct ext. }
  destruct Hpre as [->|Hend].
  - by apply name_plain.
  - destruct (endswith_snoc _ _ Hend) as [d ->].
    rewrite append_assoc.
    change (String os_path.sep "" +:+ base +:+ String "." ext)
      with (String os_path.sep (base +:+ String "." ext)).
    by apply name_snoc.
Qed.

Lemma default_output_is_stem_witness :
  output_path {| pdf_path := "dir/doc.pdf"; output := None |} = "doc_ocr.zip".
Proof.
  apply (default_output_is_stem "dir/" "doc" "pdf"); first [by right | done].
Defined.

(** C1, as the claim states it, fails on its own example: [dir/doc.pdf]
    yields [doc_ocr.zip], not [dir/doc_ocr.zip]. *)
Lemma default_output_keeps_no_directory :
  output_path {| pdf_path := "dir/doc.pdf"; output := None |} = "doc_ocr.zip"
  ∧ output_path {| pdf_path := "dir/doc.pdf"; output := None |} ≠ "dir/doc_ocr.zip".
Proof. split; [reflexivity | discriminate]. Qed.

(** ** Angle normalization *)

(** C2: the normalized angle is [90 + a] when [a < -45] and [a] otherwise;
    [-60] normalizes to [30] and [-10] stays [-10]. *)
Theorem normalize_angle_spec :
  (∀ a : float,
     normalize_angle a = if (a <? -45)%float then (90 + a)%float else a)
  ∧ normalize_angle (-60)%float = 30%float
  ∧ normalize_angle (-10)%float = (-10)%float.
Proof. by repeat split. Qed.

(** The second example of the specification goes on: [-10] is significant,
    so the image is rotated; an angle of [0.5] exactly is not. *)
Example significant_examples :
  significant (normalize_angle (-10)%float) = true
  ∧ significant (normalize_angle (-60)%float) = true
  ∧ significant 0.5%float = false
  ∧ significant (-0.25)%float = false.
Proof. by repeat split. Qed.

(** ** The image cleaner *)

Section cleaner.

Context {cv : Cv2}.

Lemma imread_bytes (path data : string) (w : world) :
  files w !! path = Some (Bytes data) → imread path w = (inr (imdecode data), w).
Proof. intros Hf. unfold imread. by rewrite Hf. Qed.

Lemma clean_and_deskew_read (path data : string) (img : Mat) (w : world) :
  files w !! path = Some (Bytes data) → imdecode data = Some img →
  clean_and_deskew path w = (inr (clean img), w).
Proof.
  intros Hf Hd. unfold clean_and_deskew, mbind, io_bind.
  by rewrite (imread_bytes _ _ _ Hf), Hd.
Qed.

(** C3: when the binarized image has a contour, the grayscale image is
    rotated about its center by the normalized angle, with cubic
    interpolation and replicated borders, exactly when the absolute
    normalized angle exceeds 0.5; otherwise the adaptive threshold gets the
    grayscale image itself. *)
Theorem deskew_rotates_iff_significant (img : Mat) (first : Contour) (rest : list Contour) :
  let gray := cvtColor img COLOR_BGR2GRAY in
  let binary := (threshold gray 128 255 THRESH_BINARY_INV).2 in
  let angle := normalize_angle (minAreaRect (max_by contourArea first rest)).2 in
  let h := (shape img).1 in
  let w := (shape img).2 in
  let rotated :=
    warpAffine gray (getRotationMatrix2D ((w `div` 2)%Z, (h `div` 2)%Z) angle 1%float)
      (w, h) INTER_CUBIC BORDER_REPLICATE in
  (findContours binary RETR_LIST CHAIN_APPROX_SIMPLE).1 = first :: rest →
  ((0.5 <? abs angle)%float = true →
     deskew img gray (first :: rest) = rotated
     ∧ clean img
       = adaptiveThreshold rotated 255 ADAPTIVE_THRESH_GAUSSIAN_C THRESH_BINARY 11 2)
  ∧ ((0.5 <? abs angle)%float = false →
     deskew img gray (first :: rest) = gray
     ∧ clean img
       = adaptiveThreshold gray 255 ADAPTIVE_THRESH_GAUSSIAN_C THRESH_BINARY 11 2).
Proof.
  intros gray binary angle h w rotated Hc.
  assert (Hclean : clean img
    = adaptiveThreshold (deskew img gray (first :: rest)) 255
        ADAPTIVE_THRESH_GAUSSIAN_C THRESH_BINARY 11 2).
  { unfold clean. fold gray. fold binary. by rewrite Hc. }
  assert (Hd : deskew img gray (first :: rest)
    = if (0.5 <? abs angle)%float then rotated else gray).
  { unfold deskew, significant. fold angle. subst rotated w h.
    by destruct (shape img), (0.5 <? abs angle)%float. }
  split; intros Ha; rewrite Hclean, Hd, Ha; done.
Qed.

(** C4: when the inverted binarization at 128 has no contours, deskewing is
    skipped and the cleaner returns, without an exception, the adaptive
    Gaussian threshold (block size 11, offset 2) of the unrotated grayscale
    image. *)
Theorem no_contours_skips_deskew (path data : string) (img : Mat) (w : world) :
  let gray := cvtColor img COLOR_BGR2GRAY in
  let binary := (threshold gray 128 255 THRESH_BINARY_INV).2 in
  files w !! path = Some (Bytes data) →
  imdecode data = Some img →
  (findContours binary RETR_LIST CHAIN_APPROX_SIMPLE).1 = [] →
  deskew img gray [] = gray
  ∧ clean_and_deskew path w
    = (inr (adaptiveThreshold gray 255 ADAPTIVE_THRESH_GAUSSIAN_C THRESH_BINARY 11 2), w).
Proof.
  intros gray binary Hf Hd Hc. split; [done|].
  rewrite (clean_and_deskew_read _ _ _ _ Hf Hd).
  unfold clean. fold gray. fold binary. by rewrite Hc.
Qed.

(** C5: the cleaner is a function of the image bytes alone. Two runs on files
    with the same bytes, in any two worlds and under any two paths, end in
    the same result (the same image or the same exception), and a run
    changes nothing in the world. The routines of [Cv2] are functions,
    which is the assumption that they are deterministic. *)
Theorem clean_and_deskew_deterministic (p1 p2 : string) (w1 w2 : world) :
  files w1 !! p1 = files w2 !! p2 →
  (clean_and_deskew p1 w1).1 = (clean_and_deskew p2 w2).1
  ∧ (clean_and_deskew p1 w1).2 = w1
  ∧ (clean_and_deskew p2 w2).2 = w2.
Proof.
  intros Hf. unfold clean_and_deskew, mbind, io_bind, imread. rewrite Hf.
  destruct (files w2 !! p2) as [[data|entries]|]; simpl; try done.
  by destruct (imdecode data).
Qed.

End cleaner.

Lemma deskew_rotates_iff_significant_witness :
  ((0.5 <? abs 30)%float = true →
     deskew (cv := sample.cv2) [97; 98]%Z [97; 98]%Z [[255; 255]%Z] = [98; 97]%Z
     ∧ clean (cv := sample.cv2) [97; 98]%Z = [98; 97]%Z)
  ∧ ((0.5 <? abs 30)%float = false →
     deskew (cv := sample.cv2) [97; 98]%Z [97; 98]%Z [[255; 255]%Z] = [97; 98]%Z
     ∧ clean (cv := sample.cv2) [97; 98]%Z = [97; 98]%Z).
Proof.
  apply (deskew_rotates_iff_significant (cv := sample.cv2) [97; 98]%Z [255; 255]%Z []).
  reflexivity.
Defined.

Lemma no_contours_skips_deskew_witness :
  deskew (cv := sample.cv2) [255%Z] [255%Z] [] = [255%Z]
  ∧ clean_and_deskew (cv := sample.cv2) "blank.png" sample.w0 = (inr [255%Z], sample.w0).
Proof.
  apply (no_contours_skips_deskew (cv := sample.cv2) "blank.png" sample.white [255%Z] sample.w0);
    reflexivity.
Defined.

Lemma clean_and_deskew_deterministic_witness :
  (clean_and_deskew (cv := sample.cv2) "scan.png" sample.w0).1
  = (clean_and_deskew (cv := sample.cv2) "copy.png"
       {| files := {[ "copy.png" := Bytes "a" ]}; stdout := ["earlier output"] |}).1
  ∧ (clean_and_deskew (cv := sample.cv2) "scan.png" sample.w0).2 = sample.w0
  ∧ (clean_and_deskew (cv := sample.cv2) "copy.png"
       {| files := {[ "copy.png" := Bytes "a" ]}; stdout := ["earlier output"] |}).2
    = {| files := {[ "copy.png" := Bytes "a" ]}; stdout := ["earlier output"] |}.
Proof.
  apply (clean_and_deskew_deterministic (cv := sample.cv2)). reflexivity.
Defined.

(** ** Page file names and paths in the temporary directory *)

Section page_paths.

Implicit Types (c : ascii) (s t d ext : string) (k : nat).

Lemma append_nil_r s : s +:+ EmptyString = s.
Proof.
  induction s as [|a r IH]; [done|].
  change (String a (r +:+ EmptyString) = String a r). by rewrite IH.
Qed.

Lemma prefix_append s t : String.prefix s (s +:+ t) = true.
Proof.
  induction s as [|a r IH]; [by destruct t|].
  change (String.prefix (String a r) (String a (r +:+ t)) = true).
  simpl. by destruct (ascii_dec a a).
Qed.

(** Two strings cut at their first [c] agree piecewise. *)
Lemma append_char_inj c s1 s2 t1 t2 :
  str.has_char c s1 = false → str.has_char c s2 = false →
  s1 +:+ String c t1 = s2 +:+ String c t2 → s1 = s2 ∧ t1 = t2.
Proof.
  revert s2. induction s1 as [|a r IH]; intros [|b q]; simpl.
  - intros _ _ Heq. by simplify_eq.
  - case_decide; [done|]. intros _ _ Heq.
    change (String c t1 = String b (q +:+ String c t2)) in Heq. by simplify_eq.
  - case_decide; [done|]. intros _ _ Heq.
    change (String a (r +:+ String c t1) = String c t2) in Heq. by simplify_eq.
  - repeat case_decide; try done. intros Hr Hq Heq.
    change (String a (r +:+ String c t1) = String b (q +:+ String c t2)) in Heq.
    simplify_eq. destruct (IH q Hr Hq) as [-> ->]; done.
Qed.

Lemma pretty_N_go_no_char c (x : N) s :
  (∀ n, pretty_N_char n ≠ c) → str.has_char c s = false →
  str.has_char c (pretty_N_go x s) = false.
Proof.
  intros Hc. revert s. induction (N.lt_wf_0 x) as [x _ IH]; intros s Hs.
  destruct (decide (x = 0%N)) as [->|Hx]; [by rewrite pretty_N_go_0|].
  rewrite pretty_N_go_step by lia. apply IH; [apply N.div_lt; lia|].
  rewrite has_char_cons. case_decide as Hd; [by destruct (Hc _ Hd)|done].
Qed.

Lemma pretty_nat_no_char c k :
  (∀ n, pretty_N_char n ≠ c) → str.has_char c (pretty k) = false.
Proof.
  intros Hc. unfold pretty, pretty_nat, pretty, pretty_N. case_decide.
  - rewrite has_char_cons. case_decide as Hd; [by destruct (Hc 0%N Hd)|done].
  - by apply pretty_N_go_no_char.
Qed.

Lemma digit_not_sep n : pretty_N_char n ≠ os_path.sep.
Proof. unfold pretty_N_char. by repeat case_match. Qed.

Lemma digit_not_dot n : pretty_N_char n ≠ "."%char.
Proof. unfold pretty_N_char. by repeat case_match. Qed.

Lemma page_file_head k ext :
  page_file k ext = String "p" ("age_" +:+ pretty k +:+ "." +:+ ext).
Proof. done. Qed.

Lemma page_file_no_sep k ext :
  str.has_char os_path.sep ext = false →
  str.has_char os_path.sep (page_file k ext) = false.
Proof.
  intros He. unfold page_file.
  rewrite !has_char_app, (pretty_nat_no_char _ _ digit_not_sep), He. done.
Qed.

Lemma page_file_inj k1 k2 ext1 ext2 :
  page_file k1 ext1 = page_file k2 ext2 → k1 = k2 ∧ ext1 = ext2.
Proof.
  unfold page_file. intros Heq. apply (inj (String.append "page_")) in Heq.
  apply append_char_inj in Heq; [|by apply pretty_nat_no_char, digit_not_dot..].
  destruct Heq as [Hk ->]. by apply (inj pretty) in Hk.
Qed.

Lemma endswith_append c s : str.endswith c (s +:+ String c EmptyString) = true.
Proof.
  induction s as [|a r IH].
  - change (str.endswith c (String c EmptyString) = true). simpl. by rewrite decide_True.
  - destruct r as [|b r']; [|exact IH].
    change (str.endswith c (String c EmptyString) = true). simpl. by rewrite decide_True.
Qed.

(** [os.path.join d ""] is [d] closed by a separator, or empty. *)
Lemma join_empty_cases d :
  os_path.join d EmptyString = EmptyString
  ∨ str.endswith os_path.sep (os_path.join d EmptyString) = true.
Proof.
  unfold os_path.join. simpl. case_decide as Hd; [left; by rewrite Hd|].
  destruct (str.endswith os_path.sep d) eqn:He; right.
  - by rewrite append_nil_r.
  - apply endswith_append.
Qed.

Lemma startswith_other c c' s :
  c' ≠ c → str.startswith (String c EmptyString) (String c' s) = false.
Proof.
  intros Hc. unfold str.startswith.
  change (String.prefix (String c EmptyString) (String c' s))
    with (if ascii_dec c c' then String.prefix EmptyString s else false).
  by destruct (ascii_dec c c') as [Heq|_]; [destruct Hc|].
Qed.

Lemma join_relative d c s :
  c ≠ os_path.sep →
  os_path.join d (String c s) = os_path.join d EmptyString +:+ String c s.
Proof.
  intros Hc. unfold os_path.join. rewrite startswith_other by done.
  change (str.startswith (String os_path.sep EmptyString) EmptyString) with false.
  cbv iota. case_decide as Hd; [by rewrite Hd|].
  destruct (str.endswith os_path.sep d).
  - by rewrite append_nil_r.
  - by rewrite append_assoc.
Qed.

Lemma inside_join d c s : c ≠ os_path.sep → inside d (os_path.join d (String c s)) = true.
Proof.
  intros Hc. unfold inside, str.startswith. rewrite join_relative by done.
  apply prefix_append.
Qed.

Lemma from_snoc c s t : str.from (S (String.length s)) (s +:+ String c t) = t.
Proof. induction s as [|a r IH]; [done|]. exact IH. Qed.

Lemma basename_append d s :
  d = EmptyString ∨ str.endswith os_path.sep d = true →
  str.has_char os_path.sep s = false →
  os_path.basename (d +:+ s) = s.
Proof.
  intros [->|He] Hs; unfold os_path.basename.
  - change (EmptyString +:+ s) with s. by rewrite rfind_no_char.
  - destruct (endswith_snoc _ _ He) as [r ->]. rewrite append_assoc.
    change (String os_path.sep "" +:+ s) with (String os_path.sep s).
    rewrite rfind_snoc by done. apply from_snoc.
Qed.

(** The page files of the program, in the temporary directory [d]. *)
Lemma basename_page d k ext :
  str.has_char os_path.sep ext = false →
  os_path.basename (os_path.join d (page_file k ext)) = page_file k ext.
Proof.
  intros He. rewrite page_file_head, join_relative by done.
  rewrite <-page_file_head.
  apply basename_append; [apply join_empty_cases|by apply page_file_no_sep].
Qed.

Lemma inside_page d k ext : inside d (os_path.join d (page_file k ext)) = true.
Proof. rewrite page_file_head. by apply inside_join. Qed.

Lemma page_path_inj d k1 k2 ext1 ext2 :
  os_path.join d (page_file k1 ext1) = os_path.join d (page_file k2 ext2) →
  k1 = k2 ∧ ext1 = ext2.
Proof.
  rewrite !page_file_head, !join_relative by done. rewrite <-!page_file_head.
  intros Heq. apply (inj (String.append _)) in Heq. by apply page_file_inj.
Qed.

End page_paths.

(** ** The pipeline *)

Section pipeline.

Context {cv : Cv2} {host : Host}.

Implicit Types (w : world) (temp out pdf : string) (images : list Image)
  (texts : list string).

Lemma bind_inr {A B : Type} (m : IO A) (k : A → IO B) w a w' :
  m w = (inr a, w') → (m ≫= k) w = k a w'.
Proof. intros Hm. unfold mbind, io_bind. by rewrite Hm. Qed.

Lemma bind_inl {A B : Type} (m : IO A) (k : A → IO B) w e w' :
  m w = (inl e, w') → (m ≫= k) w = (inl e, w').
Proof. intros Hm. unfold mbind, io_bind. by rewrite Hm. Qed.

Lemma page_text_Some (img : Image) (text : string) :
  page_text img = Some text ↔
  ∃ m, imdecode (png_encode img) = Some m ∧ image_to_string (clean m) = Some text.
Proof. unfold page_text. by rewrite bind_Some. Qed.

Lemma page_text_None (img : Image) :
  page_text img = None ↔
  imdecode (png_encode img) = None
  ∨ ∃ m, imdecode (png_encode img) = Some m ∧ image_to_string (clean m) = None.
Proof.
  unfold page_text. destruct (imdecode (png_encode img)) as [m|]; simpl.
  - split; [intros Hn; right; by exists m|]. intros [?|(m' & ? & ?)]; by simplify_eq.
  - split; [by left|done].
Qed.

(** One turn of the loop on a page that reads well. *)
Lemma process_pages_cons_ok temp total i (img : Image) images text_files text w :
  page_text img = Some text →
  process_pages temp total i (img :: images) text_files w
  = process_pages temp total (i + 1) images
      (text_files ++ [os_path.join temp (page_file (i + 1) "txt")])
      (written temp total i img text w).
Proof.
  intros (m & Hm & Ht)%page_text_Some. simpl.
  rewrite (bind_inr _ _ w tt {| files := files w; stdout := stdout w ++ progress_lines total i 1 |})
    by done.
  rewrite (bind_inr _ _ _ tt (saved temp total i img w)) by done.
  rewrite (bind_inr _ _ _ (clean m) (saved temp total i img w)).
  2:{ apply (clean_and_deskew_read _ (png_encode img)); [|done].
      apply lookup_insert_eq. }
  rewrite (bind_inr _ _ _ text (saved temp total i img w)).
  2:{ unfold ocr. by rewrite Ht. }
  by rewrite (bind_inr _ _ _ tt (written temp total i img text w)).
Qed.

(** One turn of the loop on a page that does not: the run stops with an
    exception, the page image left in the temporary directory. *)
Lemma process_pages_cons_fail temp total i (img : Image) images text_files w :
  page_text img = None →
  ∃ e, process_pages temp total i (img :: images) text_files w
       = (inl e, saved temp total i img w).
Proof.
  intros Hn. simpl.
  rewrite (bind_inr _ _ w tt {| files := files w; stdout := stdout w ++ progress_lines total i 1 |})
    by done.
  rewrite (bind_inr _ _ _ tt (saved temp total i img w)) by done.
  assert (Hread : imread (os_path.join temp (page_file (i + 1) "png")) (saved temp total i img w)
    = (inr (imdecode (png_encode img)), saved temp total i img w)).
  { apply imread_bytes, lookup_insert_eq. }
  apply page_text_None in Hn as [Hd|(m & Hd & Ht)].
  - exists Cv2Error. apply bind_inl. unfold clean_and_deskew.
    rewrite (bind_inr _ _ _ _ _ Hread), Hd. done.
  - exists TesseractError.
    rewrite (bind_inr _ _ _ (clean m) (saved temp total i img w)).
    2:{ unfold clean_and_deskew. by rewrite (bind_inr _ _ _ _ _ Hread), Hd. }
    apply bind_inl. unfold ocr. by rewrite Ht.
Qed.

Lemma page_path_outside temp p k ext :
  inside temp p = false → os_path.join temp (page_file k ext) ≠ p.
Proof. intros Hp <-. by rewrite inside_page in Hp. Qed.

Lemma saved_outside temp total i (img : Image) w p :
  inside temp p = false → files (saved temp total i img w) !! p = files w !! p.
Proof. intros Hp. simpl. by rewrite lookup_insert_ne by by apply page_path_outside. Qed.

Lemma written_outside temp total i (img : Image) text w p :
  inside temp p = false → files (written temp total i img text w) !! p = files w !! p.
Proof.
  intros Hp. unfold written, saved. simpl.
  by rewrite !lookup_insert_ne by by apply page_path_outside.
Qed.

Lemma written_text temp total i (img : Image) text w k :
  files (written temp total i img text w) !! os_path.join temp (page_file k "txt")
  = if decide (k = i + 1) then Some (Bytes text)
    else files w !! os_path.join temp (page_file k "txt").
Proof.
  unfold written, saved. simpl. case_decide as Hk.
  - subst k. apply lookup_insert_eq.
  - rewrite !lookup_insert_ne; [done|..]; intros [??]%page_path_inj; done.
Qed.

(** The loop never touches a file outside the temporary directory. *)
Lemma process_pages_frame temp total images : ∀ i text_files w p,
  inside temp p = false →
  files (process_pages temp total i images text_files w).2 !! p = files w !! p.
Proof.
  induction images as [|img images IH]; intros i text_files w p Hp; [done|].
  destruct (page_text img) as [text|] eqn:Ht.
  - rewrite (process_pages_cons_ok _ _ _ _ _ _ _ _ Ht), IH by done.
    by apply written_outside.
  - destruct (process_pages_cons_fail temp total i img images text_files w Ht) as [e ->].
    by apply saved_outside.
Qed.

Lemma text_paths_S temp i n :
  text_paths temp i (S n)
  = os_path.join temp (page_file (i + 1) "txt") :: text_paths temp (i + 1) n.
Proof. unfold text_paths. simpl. by replace (S (i + 1)) with (i + 1 + 1) by lia. Qed.

Lemma progress_lines_S total i n :
  progress_lines total i (S n) = progress_lines total i 1 ++ progress_lines total (i + 1) n.
Proof. unfold progress_lines. simpl. by replace (S (i + 1)) with (i + 1 + 1) by lia. Qed.

(** When every page reads well the loop ends normally, having written the
    text of each page to its own file and printed one line per page. *)
Lemma process_pages_ok temp total images texts :
  Forall2 (λ img text, page_text img = Some text) images texts →
  ∀ i text_files w, ∃ w',
    process_pages temp total i images text_files w
    = (inr (text_files ++ text_paths temp i (length images)), w')
    ∧ (∀ k, k ≤ i →
         files w' !! os_path.join temp (page_file k "txt")
         = files w !! os_path.join temp (page_file k "txt"))
    ∧ (∀ j text, texts !! j = Some text →
         files w' !! os_path.join temp (page_file (i + 1 + j) "txt") = Some (Bytes text))
    ∧ stdout w' = stdout w ++ progress_lines total i (length images).
Proof.
  induction 1 as [|img text images texts Ht _ IH]; intros i text_files w.
  - exists w. unfold text_paths, progress_lines. simpl. rewrite !app_nil_r.
    by repeat split.
  - rewrite (process_pages_cons_ok _ _ _ _ _ _ _ _ Ht).
    destruct (IH (i + 1) (text_files ++ [os_path.join temp (page_file (i + 1) "txt")])
                (written temp total i img text w)) as (w' & -> & Hold & Hnew & Hout).
    exists w'. split; [|split; [|split]].
    + simpl length. by rewrite text_paths_S, <-app_assoc.
    + intros k Hk. rewrite Hold by lia. rewrite written_text.
      by rewrite decide_False by lia.
    + intros [|j] t Hj.
      * assert (t = text) as -> by (by simplify_eq/=).
        rewrite Nat.add_0_r, Hold by lia. rewrite written_text.
        by rewrite decide_True.
      * replace (i + 1 + S j) with (i + 1 + 1 + j) by lia. apply Hnew. exact Hj.
    + rewrite Hout. simpl length.
      change (stdout (written temp total i img text w))
        with (stdout w ++ progress_lines total i 1).
      by rewrite (progress_lines_S total i (length images)), <-app_assoc.
Qed.

(** When some page does not, the loop ends in an exception. *)
Lemma process_pages_fail temp total images : ∀ i text_files w,
  mapM page_text images = None →
  ∃ e, (process_pages temp total i images text_files w).1 = inl e.
Proof.
  induction images as [|img images IH]; intros i text_files w Hn; [done|].
  destruct (page_text img) as [text|] eqn:Ht.
  - rewrite (process_pages_cons_ok _ _ _ _ _ _ _ _ Ht). apply IH.
    simpl in Hn. rewrite Ht in Hn. simpl in Hn.
    by destruct (mapM page_text images).
  - destruct (process_pages_cons_fail temp total i img images text_files w Ht) as [e ->].
    by exists e.
Qed.

(** The archiver, when every listed file exists and none is the output
    file: the archive holds one entry per file, in the order of the list,
    named by the file's base name. *)
Lemma zip_write_all_ok out : ∀ (paths : list string) (contents : list file) entries w,
  Forall2 (λ p f, files w !! p = Some f ∧ p ≠ out) paths contents →
  files w !! out = Some (ZipArchive entries) →
  zip_write_all out entries paths w
  = (inr tt,
     {| files := <[out := ZipArchive
                    (entries ++ zip_with (λ p f, (os_path.basename p, f)) paths contents)]>
                   (files w);
        stdout := stdout w |}).
Proof.
  induction paths as [|p paths IH]; intros contents entries w Hall Hout.
  - apply Forall2_nil_inv_l in Hall as ->. simpl. rewrite app_nil_r.
    rewrite insert_id by done. by destruct w.
  - apply Forall2_cons_inv_l in Hall as (f & contents' & [Hp Hne] & Hall & ->).
    simpl.
    rewrite (bind_inr _ _ w f w) by (unfold read_file; by rewrite Hp).
    set (entries' := entries ++ [(os_path.basename p, f)]).
    set (w1 := {| files := <[out := ZipArchive entries']> (files w); stdout := stdout w |}).
    rewrite (bind_inr _ _ w tt w1) by done.
    rewrite (IH contents' entries' w1).
    + subst w1 entries'. simpl. by rewrite insert_insert_eq, <-app_assoc.
    + eapply Forall2_impl; [exact Hall|]. intros q g [Hq Hqne]. split; [|done].
      subst w1. simpl. by rewrite lookup_insert_ne.
    + subst w1. simpl. apply lookup_insert_eq.
Qed.

Lemma create_zip_ok out (paths : list string) (contents : list file) w :
  Forall2 (λ p f, files w !! p = Some f ∧ p ≠ out) paths contents →
  create_zip paths out w
  = (inr tt,
     {| files := <[out := ZipArchive (zip_with (λ p f, (os_path.basename p, f)) paths contents)]>
                   (files w);
        stdout := stdout w |}).
Proof.
  intros Hall. unfold create_zip.
  set (w1 := {| files := <[out := ZipArchive []]> (files w); stdout := stdout w |}).
  rewrite (bind_inr _ _ w tt w1) by done.
  rewrite (zip_write_all_ok out paths contents [] w1).
  - subst w1. simpl. by rewrite insert_insert_eq.
  - eapply Forall2_impl; [exact Hall|]. intros q g [Hq Hqne]. split; [|done].
    subst w1. simpl. by rewrite lookup_insert_ne.
  - subst w1. simpl. apply lookup_insert_eq.
Qed.

(** The entries made from the text files of pages [i + 1] on. *)
Lemma zip_text_paths temp texts : ∀ i,
  zip_with (λ p f, (os_path.basename p, f)) (text_paths temp i (length texts)) (Bytes <$> texts)
  = imap (λ j text, (page_file (i + 1 + j) "txt", Bytes text)) texts.
Proof.
  induction texts as [|text texts IH]; intros i; [done|].
  simpl length. rewrite text_paths_S, fmap_cons, imap_cons. simpl zip_with.
  rewrite basename_page by done. rewrite Nat.add_0_r. f_equal.
  rewrite IH. apply imap_ext. intros j t _. simpl. do 2 f_equal. lia.
Qed.

Lemma zip_text_paths_entries temp texts :
  zip_with (λ p f, (os_path.basename p, f)) (text_paths temp 0 (length texts)) (Bytes <$> texts)
  = page_entries texts.
Proof.
  rewrite zip_text_paths. apply imap_ext. intros j t _. simpl. do 2 f_equal. lia.
Qed.

Lemma cleanup_lookup temp (m : gmap string file) p :
  filter (λ kv, inside temp kv.1 = false) m !! p
  = if inside temp p then None else m !! p.
Proof.
  destruct (inside temp p) eqn:Hp.
  - apply map_lookup_filter_None. right. intros f _. simpl. by rewrite Hp.
  - destruct (m !! p) as [f|] eqn:Hm.
    + by apply map_lookup_filter_Some.
    + apply map_lookup_filter_None. by left.
Qed.

Lemma TemporaryDirectory_run {A : Type} temp (body : IO A) w r w' :
  body w = (r, w') →
  TemporaryDirectory temp body w
  = (r, {| files := filter (λ kv, inside temp kv.1 = false) (files w');
           stdout := stdout w' |}).
Proof. intros Hb. unfold TemporaryDirectory. by rewrite Hb. Qed.

Lemma convert_from_path_ok pdf data images w :
  files w !! pdf = Some (Bytes data) → pdf_pages data = Some images →
  convert_from_path pdf w = (inr images, w).
Proof. intros Hf Hp. unfold convert_from_path. by rewrite Hf, Hp. Qed.

Lemma convert_from_path_fail pdf w :
  (∀ data, files w !! pdf = Some (Bytes data) → pdf_pages data = None) →
  convert_from_path pdf w = (inl PDFError, w).
Proof.
  intros Hn. unfold convert_from_path.
  destruct (files w !! pdf) as [[data|entries]|]; try done.
  by rewrite (Hn data).
Qed.

(** A run on a PDF whose pages all read well. *)
Lemma process_pdf_ok temp pdf out w texts :
  pdf_texts w pdf = Some texts → inside temp out = false →
  ∃ w', process_pdf temp pdf out w = (inr tt, w')
    ∧ files w' !! out = Some (ZipArchive (page_entries texts))
    ∧ (∀ p, p ≠ out → files w' !! p = if inside temp p then None else files w !! p)
    ∧ stdout w'
      = stdout w ++ ["Converting PDF: " +:+ pdf]
          ++ progress_lines (length texts) 0 (length texts)
          ++ ["OCR processing complete. Results saved to " +:+ out].
Proof.
  intros Htexts Hout. unfold pdf_texts in Htexts.
  destruct (files w !! pdf) as [[data|]|] eqn:Hf; try done.
  destruct (pdf_pages data) as [images|] eqn:Hp; [|done].
  simpl in Htexts. apply mapM_Some in Htexts.
  pose proof (Forall2_length _ _ _ Htexts) as Hlen.
  set (wa := {| files := files w; stdout := stdout w ++ ["Converting PDF: " +:+ pdf] |}).
  destruct (process_pages_ok temp (length images) images texts Htexts 0 [] wa)
    as (wb & Hrun & _ & Hnew & Hlines).
  pose proof (process_pages_frame temp (length images) images 0 [] wa) as Hframe.
  rewrite Hrun in Hframe. simpl in Hframe.
  set (wc := {| files := <[out := ZipArchive (page_entries texts)]> (files wb);
                stdout := stdout wb |}).
  eexists. split; [|split; [|split]].
  - unfold process_pdf.
    rewrite (bind_inr _ _ w tt
      {| files := filter (λ kv, inside temp kv.1 = false) (files wc); stdout := stdout wc |});
      [reflexivity|].
    apply TemporaryDirectory_run.
    rewrite (bind_inr _ _ w tt wa) by done.
    rewrite (bind_inr _ _ wa images wa) by by apply (convert_from_path_ok _ data).
    rewrite (bind_inr _ _ wa _ wb Hrun). rewrite app_nil_l, Hlen.
    rewrite (create_zip_ok out _ (Bytes <$> texts)).
    + by rewrite zip_text_paths_entries.
    + apply Forall2_same_length_lookup_2.
      { unfold text_paths. by rewrite !length_fmap, length_seq. }
      intros j q f Hq Hf'. unfold text_paths in Hq.
      apply list_lookup_fmap_Some in Hq as (k & -> & [-> _]%lookup_seq).
      apply list_lookup_fmap_Some in Hf' as (text & -> & Ht).
      split; [by apply Hnew|]. by apply page_path_outside.
  - simpl. rewrite cleanup_lookup, Hout. apply lookup_insert_eq.
  - intros q Hq. simpl. rewrite cleanup_lookup.
    destruct (inside temp q) eqn:Hin; [done|].
    rewrite lookup_insert_ne by done. by apply Hframe.
  - simpl. rewrite Hlines. simpl. rewrite Hlen. by rewrite <-!app_assoc.
Qed.

(** A run on anything else ends in an exception, and leaves every file
    outside the temporary directory as it was. *)
Lemma process_pdf_fail temp pdf out w :
  pdf_texts w pdf = None →
  ∃ e w', process_pdf temp pdf out w = (inl e, w')
    ∧ ∀ p, files w' !! p = if inside temp p then None else files w !! p.
Proof.
  intros Htexts.
  set (wa := {| files := files w; stdout := stdout w ++ ["Converting PDF: " +:+ pdf] |}).
  assert (Hpages : (∀ data, files w !! pdf = Some (Bytes data) → pdf_pages data = None)
    ∨ ∃ data images, files w !! pdf = Some (Bytes data) ∧ pdf_pages data = Some images
        ∧ mapM page_text images = None).
  { unfold pdf_texts in Htexts. destruct (files w !! pdf) as [[data|]|]; [|by left..].
    destruct (pdf_pages data) as [images|] eqn:Hp.
    - right. by exists data, images.
    - left. intros ? [= <-]. done. }
  destruct Hpages as [Hconv|(data & images & Hf & Hp & Hn)].
  - exists PDFError. eexists. split.
    + unfold process_pdf. eapply bind_inl.
      apply TemporaryDirectory_run with (w' := wa).
      rewrite (bind_inr _ _ w tt wa) by done.
      apply bind_inl. by apply convert_from_path_fail.
    + intros q. simpl. by rewrite cleanup_lookup.
  - destruct (process_pages_fail temp (length images) images 0 [] wa Hn) as [e He].
    pose proof (process_pages_frame temp (length images) images 0 [] wa) as Hframe.
    destruct (process_pages temp (length images) 0 images [] wa) as [r wb] eqn:Hrun.
    simpl in He, Hframe. subst r.
    exists e. eexists. split.
    + unfold process_pdf. eapply bind_inl.
      apply TemporaryDirectory_run with (w' := wb).
      rewrite (bind_inr _ _ w tt wa) by done.
      rewrite (bind_inr _ _ wa images wa) by by apply (convert_from_path_ok _ data).
      by apply bind_inl.
    + intros q. simpl. rewrite cleanup_lookup.
      destruct (inside temp q) eqn:Hin; [done|]. by apply Hframe.
Qed.

End pipeline.

(** ** The output archive *)

Section archive.

Context {cv : Cv2} {host : Host}.

Implicit Types (w : world) (temp out pdf data : string) (images : list Image)
  (texts : list string).

Lemma pdf_texts_Some w pdf data images texts :
  files w !! pdf = Some (Bytes data) → pdf_pages data = Some images →
  mapM page_text images = Some texts → pdf_texts w pdf = Some texts.
Proof. intros Hf Hp Ht. unfold pdf_texts. rewrite Hf, Hp. exact Ht. Qed.

Lemma page_entries_lookup texts j :
  page_entries texts !! j = (λ text, (page_file (j + 1) "txt", Bytes text)) <$> texts !! j.
Proof. unfold page_entries. apply list_lookup_imap. Qed.

Lemma page_texts_lookup images texts j (img : Image) :
  mapM page_text images = Some texts → images !! j = Some img →
  ∃ text, texts !! j = Some text ∧ page_text img = Some text.
Proof.
  intros Hall%mapM_Some Hj.
  destruct (Forall2_lookup_l _ _ _ _ _ Hall Hj) as (text & Ht & Hp). by exists text.
Qed.

(** C6: for a PDF of N pages that all read well, the run ends normally and
    the archive at the output path has exactly N entries; the entry at
    position j holds the text of the page at position j of the document, so
    the order of the entries is the order of the pages. The output path is
    not inside the temporary directory, which the host has just created. *)
Theorem archive_follows_page_order temp pdf out w data images texts :
  files w !! pdf = Some (Bytes data) →
  pdf_pages data = Some images →
  mapM page_text images = Some texts →
  inside temp out = false →
  (process_pdf temp pdf out w).1 = inr tt
  ∧ ∃ entries,
      files (process_pdf temp pdf out w).2 !! out = Some (ZipArchive entries)
      ∧ length entries = length images
      ∧ ∀ j img, images !! j = Some img →
          ∃ name text, entries !! j = Some (name, Bytes text)
                       ∧ page_text img = Some text.
Proof.
  intros Hf Hp Ht Hout.
  destruct (process_pdf_ok temp pdf out w texts (pdf_texts_Some _ _ _ _ _ Hf Hp Ht) Hout)
    as (w' & -> & Hzip & _).
  split; [done|]. exists (page_entries texts). split; [done|]. split.
  - unfold page_entries. rewrite length_imap.
    symmetry. apply mapM_Some in Ht. by eapply Forall2_length.
  - intros j img Hj. destruct (page_texts_lookup _ _ _ _ Ht Hj) as (text & Htj & Hpt).
    exists (page_file (j + 1) "txt"), text. split; [|done].
    by rewrite page_entries_lookup, Htj.
Qed.

(** C7: a run that fails at some page (the PDF does not convert, or a page
    image cannot be read back or recognized) ends in an exception and
    leaves the output path as it was; whenever a run ends in an exception
    the output path is as it was; and a run either ends in an exception or
    ends normally with every page's text in the archive. The output path is
    any path outside the temporary directory. *)
Theorem failure_leaves_no_archive temp pdf out w :
  inside temp out = false →
  (pdf_texts w pdf = None →
     ∃ e, (process_pdf temp pdf out w).1 = inl e
          ∧ files (process_pdf temp pdf out w).2 !! out = files w !! out)
  ∧ (∀ e, (process_pdf temp pdf out w).1 = inl e →
       files (process_pdf temp pdf out w).2 !! out = files w !! out)
  ∧ ((∃ e, (process_pdf temp pdf out w).1 = inl e)
     ∨ ((process_pdf temp pdf out w).1 = inr tt
        ∧ ∃ texts, pdf_texts w pdf = Some texts
            ∧ files (process_pdf temp pdf out w).2 !! out
              = Some (ZipArchive (page_entries texts)))).
Proof.
  intros Hout. destruct (pdf_texts w pdf) as [texts|] eqn:Htexts.
  - destruct (process_pdf_ok temp pdf out w texts Htexts Hout) as (w' & -> & Hzip & _).
    split; [done|]. split; [done|]. right. split; [done|]. by exists texts.
  - destruct (process_pdf_fail temp pdf out w Htexts) as (e & w' & -> & Hfiles).
    assert (Hsame : files w' !! out = files w !! out) by (by rewrite Hfiles, Hout).
    split; [by exists e|]. split; [done|]. left. by exists e.
Qed.

(** Past the two preflight checks the script is [process_pdf] on the input
    path and the resolved output path. *)
Lemma main_after_preflight temp (args : Namespace) w version :
  get_tesseract_version = Some version →
  (∀ e, poppler_probe = Some e → str.contains "poppler" (str.lower e) = false) →
  main temp args w = process_pdf temp (pdf_path args) (output_path args) w.
Proof.
  intros Hv Hp. unfold main, check_tesseract_installed. rewrite Hv. simpl negb. cbv iota.
  rewrite (bind_inr _ _ w tt w) by done.
  rewrite (bind_inr _ _ w tt w); [done|].
  destruct poppler_probe as [e|]; [|done]. by rewrite (Hp e).
Qed.

(** C8: when the OCR engine is not installed, the script prints the two
    lines of the installation hint and exits with status 1; no file is
    created or changed and nothing else is printed, so no processing has
    begun. *)
Theorem missing_tesseract_exits_1 temp (args : Namespace) w :
  get_tesseract_version = None →
  run temp args w
  = (1%Z,
     {| files := files w;
        stdout := stdout w ++
          ["ERROR: Tesseract OCR is not installed or not in PATH.";
           "Please install Tesseract: https://github.com/tesseract-ocr/tesseract"] |}).
Proof.
  intros Hv. unfold run, main, check_tesseract_installed. rewrite Hv. simpl negb.
  cbv iota. unfold mbind, io_bind, print, sys_exit, raise. simpl.
  by rewrite <-app_assoc.
Qed.

(** C9: for a PDF that renders to zero pages the run ends normally and the
    output path (any path outside the temporary directory) holds an archive
    with no entries. *)
Theorem empty_pdf_gives_empty_archive temp pdf out w data :
  files w !! pdf = Some (Bytes data) →
  pdf_pages data = Some [] →
  inside temp out = false →
  (process_pdf temp pdf out w).1 = inr tt
  ∧ files (process_pdf temp pdf out w).2 !! out = Some (ZipArchive []).
Proof.
  intros Hf Hp Hout.
  destruct (process_pdf_ok temp pdf out w [] (pdf_texts_Some _ _ _ _ _ Hf Hp eq_refl) Hout)
    as (w' & -> & Hzip & _).
  done.
Qed.

(** C10: entry names count pages from one. For a PDF of N pages that all
    read well, the names of the archive entries are [page_1.txt] to
    [page_N.txt] in this order, the text of the page at position j is stored
    under [page_(j+1).txt], and an entry named [page_i.txt] holds the text
    of the i-th page. The output path is outside the temporary directory. *)
Theorem archive_names_are_one_based temp pdf out w data images texts :
  files w !! pdf = Some (Bytes data) →
  pdf_pages data = Some images →
  mapM page_text images = Some texts →
  inside temp out = false →
  ∃ entries,
    files (process_pdf temp pdf out w).2 !! out = Some (ZipArchive entries)
    ∧ entries.*1 = (λ i, page_file i "txt") <$> seq 1 (length images)
    ∧ (∀ j img, images !! j = Some img →
         ∃ text, page_text img = Some text
                 ∧ entries !! j = Some (page_file (j + 1) "txt", Bytes text))
    ∧ (∀ i f, (page_file i "txt", f) ∈ entries →
         1 ≤ i ≤ length images
         ∧ ∃ img text, images !! (i - 1) = Some img
                       ∧ page_text img = Some text ∧ f = Bytes text).
Proof.
  intros Hf Hp Ht Hout.
  destruct (process_pdf_ok temp pdf out w texts (pdf_texts_Some _ _ _ _ _ Hf Hp Ht) Hout)
    as (w' & -> & Hzip & _).
  pose proof Ht as Hall%mapM_Some. pose proof (Forall2_length _ _ _ Hall) as Hlen.
  exists (page_entries texts). split; [done|]. split; [|split].
  - apply list_eq. intros j.
    rewrite !list_lookup_fmap, page_entries_lookup.
    destruct (texts !! j) as [text|] eqn:Htj; simpl.
    + apply lookup_lt_Some in Htj as Hlt.
      rewrite (proj2 (lookup_seq 1 (length images) j (1 + j))) by (split; lia).
      simpl. do 2 f_equal. lia.
    + apply lookup_ge_None in Htj.
      by rewrite (proj2 (lookup_ge_None (seq 1 (length images)) j))
        by (rewrite length_seq; lia).
  - intros j img Hj. destruct (page_texts_lookup _ _ _ _ Ht Hj) as (text & Htj & Hpt).
    exists text. split; [done|]. by rewrite page_entries_lookup, Htj.
  - intros i f [j Hj]%list_elem_of_lookup.
    rewrite page_entries_lookup in Hj.
    destruct (texts !! j) as [text|] eqn:Htj; [|done].
    apply (inj Some) in Hj.
    pose proof (f_equal fst Hj) as Hname. pose proof (f_equal snd Hj) as Hdata.
    cbn [fst snd] in Hname, Hdata. subst f.
    apply page_file_inj in Hname as [<- _].
    apply lookup_lt_Some in Htj as Hlt. split; [lia|].
    replace (j + 1 - 1) with j by lia.
    destruct (Forall2_lookup_r _ _ _ _ _ Hall Htj) as (img & Hi & Hpt).
    by exists img, text.
Qed.

End archive.

(** ** The program on the sample host *)

Example sample_run_status :
  (run (host := sample.installed) sample.tmp sample.args sample.w0).1 = 0%Z.
Proof. vm_compute. reflexivity. Qed.

Example sample_run_archive :
  files (run (host := sample.installed) sample.tmp sample.args sample.w0).2 !! "ab_ocr.zip"
  = Some (ZipArchive [("page_1.txt", Bytes "a"); ("page_2.txt", Bytes "b")]).
Proof. vm_compute. reflexivity. Qed.

Example sample_run_output :
  stdout (run (host := sample.installed) sample.tmp sample.args sample.w0).2
  = ["Converting PDF: in/ab.pdf"; "Processing page 1/2"; "Processing page 2/2";
     "OCR processing complete. Results saved to ab_ocr.zip"].
Proof. vm_compute. reflexivity. Qed.

Example sample_temporary_directory_removed :
  filter (λ kv, inside sample.tmp kv.1 = true)
    (files (run (host := sample.installed) sample.tmp sample.args sample.w0).2) = ∅.
Proof. vm_compute. reflexivity. Qed.

Example sample_bad_page :
  (process_pdf (host := sample.installed) sample.tmp "in/bad.pdf" "out.zip" sample.w0).1
  = inl TesseractError.
Proof. vm_compute. reflexivity. Qed.

Lemma archive_follows_page_order_witness :
  (process_pdf (host := sample.installed) sample.tmp "in/ab.pdf" "out.zip" sample.w0).1 = inr tt
  ∧ ∃ entries,
      files (process_pdf (host := sample.installed) sample.tmp "in/ab.pdf" "out.zip" sample.w0).2
        !! "out.zip" = Some (ZipArchive entries)
      ∧ length entries = length ["a"; "b"]%char
      ∧ ∀ j img, ["a"; "b"]%char !! j = Some img →
          ∃ name text, entries !! j = Some (name, Bytes text)
                       ∧ page_text (host := sample.installed) img = Some text.
Proof.
  apply (archive_follows_page_order (host := sample.installed)
           sample.tmp "in/ab.pdf" "out.zip" sample.w0 "ab" ["a"; "b"]%char ["a"; "b"]);
    reflexivity.
Defined.

Lemma failure_leaves_no_archive_witness :
  (pdf_texts (host := sample.installed) sample.w0 "in/bad.pdf" = None →
     ∃ e, (process_pdf (host := sample.installed) sample.tmp "in/bad.pdf" "out.zip" sample.w0).1
          = inl e
          ∧ files (process_pdf (host := sample.installed) sample.tmp "in/bad.pdf" "out.zip"
                     sample.w0).2 !! "out.zip"
            = files sample.w0 !! "out.zip")
  ∧ (∀ e, (process_pdf (host := sample.installed) sample.tmp "in/bad.pdf" "out.zip" sample.w0).1
          = inl e →
       files (process_pdf (host := sample.installed) sample.tmp "in/bad.pdf" "out.zip"
                sample.w0).2 !! "out.zip"
       = files sample.w0 !! "out.zip")
  ∧ ((∃ e, (process_pdf (host := sample.installed) sample.tmp "in/bad.pdf" "out.zip"
              sample.w0).1 = inl e)
     ∨ ((process_pdf (host := sample.installed) sample.tmp "in/bad.pdf" "out.zip" sample.w0).1
        = inr tt
        ∧ ∃ texts, pdf_texts (host := sample.installed) sample.w0 "in/bad.pdf" = Some texts
            ∧ files (process_pdf (host := sample.installed) sample.tmp "in/bad.pdf" "out.zip"
                       sample.w0).2 !! "out.zip"
              = Some (ZipArchive (page_entries texts)))).
Proof.
  apply (failure_leaves_no_archive (host := sample.installed)
           sample.tmp "in/bad.pdf" "out.zip" sample.w0).
  reflexivity.
Defined.

Lemma missing_tesseract_exits_1_witness :
  run (host := sample.missing) sample.tmp sample.args sample.w0
  = (1%Z,
     {| files := files sample.w0;
        stdout := stdout sample.w0 ++
          ["ERROR: Tesseract OCR is not installed or not in PATH.";
           "Please install Tesseract: https://github.com/tesseract-ocr/tesseract"] |}).
Proof.
  apply (missing_tesseract_exits_1 (host := sample.missing) sample.tmp sample.args sample.w0).
  reflexivity.
Defined.

Lemma empty_pdf_gives_empty_archive_witness :
  (process_pdf (host := sample.installed) sample.tmp "in/empty.pdf" "out.zip" sample.w0).1
  = inr tt
  ∧ files (process_pdf (host := sample.installed) sample.tmp "in/empty.pdf" "out.zip"
             sample.w0).2 !! "out.zip"
    = Some (ZipArchive []).
Proof.
  apply (empty_pdf_gives_empty_archive (host := sample.installed)
           sample.tmp "in/empty.pdf" "out.zip" sample.w0 "");
    reflexivity.
Defined.

Lemma archive_names_are_one_based_witness :
  ∃ entries,
    files (process_pdf (host := sample.installed) sample.tmp "in/ab.pdf" "out.zip" sample.w0).2
      !! "out.zip" = Some (ZipArchive entries)
    ∧ entries.*1 = (λ i, page_file i "txt") <$> seq 1 (length ["a"; "b"]%char)
    ∧ (∀ j img, ["a"; "b"]%char !! j = Some img →
         ∃ text, page_text (host := sample.installed) img = Some text
                 ∧ entries !! j = Some (page_file (j + 1) "txt", Bytes text))
    ∧ (∀ i f, (page_file i "txt", f) ∈ entries →
         1 ≤ i ≤ length ["a"; "b"]%char
         ∧ ∃ img text, ["a"; "b"]%char !! (i - 1) = Some img
                       ∧ page_text (host := sample.installed) img = Some text
                       ∧ f = Bytes text).
Proof.
  apply (archive_names_are_one_based (host := sample.installed)
           sample.tmp "in/ab.pdf" "out.zip" sample.w0 "ab" ["a"; "b"]%char ["a"; "b"]);
    reflexivity.
Defined.

(** * Further properties of the code *)

(** ** The archiver on its own (lines 128-134) *)

Section archiver.

Implicit Types (w : world) (out : string) (paths : list string) (contents : list file).

(** Entries are only ever added after the files listed so far. *)
Lemma zip_write_all_app out : ∀ paths contents rest entries w,
  Forall2 (λ p f, files w !! p = Some f ∧ p ≠ out) paths contents →
  files w !! out = Some (ZipArchive entries) →
  zip_write_all out entries (paths ++ rest) w
  = zip_write_all out
      (entries ++ zip_with (λ p f, (os_path.basename p, f)) paths contents) rest
      {| files := <[out := ZipArchive
                     (entries ++ zip_with (λ p f, (os_path.basename p, f)) paths contents)]>
                    (files w);
         stdout := stdout w |}.
Proof.
  induction paths as [|p paths IH]; intros contents rest entries w Hall Hout.
  - apply Forall2_nil_inv_l in Hall as ->. simpl. rewrite app_nil_r.
    rewrite insert_id by done. by destruct w.
  - apply Forall2_cons_inv_l in Hall as (f & contents' & [Hp Hne] & Hall & ->).
    simpl.
    rewrite (bind_inr _ _ w f w) by (unfold read_file; by rewrite Hp).
    set (entries' := entries ++ [(os_path.basename p, f)]).
    set (w1 := {| files := <[out := ZipArchive entries']> (files w); stdout := stdout w |}).
    rewrite (bind_inr _ _ w tt w1) by done.
    rewrite (IH contents' rest entries' w1).
    + subst w1 entries'. simpl. by rewrite insert_insert_eq, <-app_assoc.
    + eapply Forall2_impl; [exact Hall|]. intros q g [Hq Hqne]. split; [|done].
      subst w1. simpl. by rewrite lookup_insert_ne.
    + subst w1. simpl. apply lookup_insert_eq.
Qed.

(** The archiver changes no file but the output file, whatever happens. *)
Lemma zip_write_all_frame out p : ∀ paths entries w,
  p ≠ out → files (zip_write_all out entries paths w).2 !! p = files w !! p.
Proof.
  induction paths as [|q paths IH]; intros entries w Hp; [done|].
  simpl. unfold mbind, io_bind, read_file.
  destruct (files w !! q) as [f|]; [|done]. simpl.
  rewrite IH by done. simpl. by rewrite lookup_insert_ne.
Qed.

Lemma create_zip_frame out p paths w :
  p ≠ out → files (create_zip paths out w).2 !! p = files w !! p.
Proof.
  intros Hp. unfold create_zip, mbind, io_bind. simpl.
  rewrite zip_write_all_frame by done. simpl. by rewrite lookup_insert_ne.
Qed.

(** With every listed file present the archiver does not fail. *)
Lemma zip_write_all_total out : ∀ paths entries w,
  Forall (λ p, is_Some (files w !! p)) paths →
  (zip_write_all out entries paths w).1 = inr tt.
Proof.
  induction paths as [|q paths IH]; intros entries w Hall; [done|].
  apply Forall_cons in Hall as [[f Hq] Hall].
  simpl. unfold mbind, io_bind, read_file. rewrite Hq. simpl.
  apply IH. eapply Forall_impl; [exact Hall|]. intros p [g Hg]. simpl.
  destruct (decide (out = p)) as [->|Hne].
  - rewrite lookup_insert_eq. by eexists.
  - rewrite lookup_insert_ne by done. by eexists.
Qed.

Lemma create_zip_total out paths w :
  Forall (λ p, is_Some (files w !! p)) paths → (create_zip paths out w).1 = inr tt.
Proof.
  intros Hall. unfold create_zip, mbind, io_bind. simpl.
  apply zip_write_all_total. eapply Forall_impl; [exact Hall|]. intros p [g Hg]. simpl.
  destruct (decide (out = p)) as [->|Hne].
  - rewrite lookup_insert_eq. by eexists.
  - rewrite lookup_insert_ne by done. by eexists.
Qed.

Lemma zip_entries_names_contents paths contents :
  length paths = length contents →
  (zip_with (λ p f, (os_path.basename p, f)) paths contents).*1 = os_path.basename <$> paths
  ∧ (zip_with (λ p f, (os_path.basename p, f)) paths contents).*2 = contents.
Proof.
  revert contents. induction paths as [|p paths IH]; intros [|f contents] Hlen;
    simplify_eq/=; [done|].
  destruct (IH contents Hlen) as [-> ->]. done.
Qed.

(** X1: When every listed file exists and none is the output file, the archiver
    ends normally; the output file, whatever it held, is an archive with one
    entry per listed file, in list order, each named by the base name of its
    path and holding the file's content; no other file changes and nothing
    is printed. *)
Theorem create_zip_archives_by_base_name out paths contents w :
  Forall2 (λ p f, files w !! p = Some f ∧ p ≠ out) paths contents →
  (create_zip paths out w).1 = inr tt
  ∧ (∃ entries,
       files (create_zip paths out w).2 !! out = Some (ZipArchive entries)
       ∧ entries.*1 = os_path.basename <$> paths
       ∧ entries.*2 = contents)
  ∧ (∀ p, p ≠ out → files (create_zip paths out w).2 !! p = files w !! p)
  ∧ stdout (create_zip paths out w).2 = stdout w.
Proof.
  intros Hall. pose proof (Forall2_length _ _ _ Hall) as Hlen.
  split; [|split; [|split]].
  - by rewrite (create_zip_ok out paths contents w Hall).
  - rewrite (create_zip_ok out paths contents w Hall). simpl.
    eexists. split; [apply lookup_insert_eq|].
    by apply zip_entries_names_contents.
  - intros p Hp. by apply create_zip_frame.
  - by rewrite (create_zip_ok out paths contents w Hall).
Qed.

(** X2: When a listed file is missing, the archiver raises [FileNotFoundError]
    for the first such file and stops; the output file has been created all
    the same and is left as an archive of the files listed before the
    missing one. *)
Theorem create_zip_missing_file out paths contents missing rest w :
  Forall2 (λ p f, files w !! p = Some f ∧ p ≠ out) paths contents →
  files w !! missing = None →
  missing ≠ out →
  create_zip (paths ++ missing :: rest) out w
  = (inl (FileNotFoundError missing),
     {| files := <[out := ZipArchive (zip_with (λ p f, (os_path.basename p, f)) paths contents)]>
                   (files w);
        stdout := stdout w |}).
Proof.
  intros Hall Hmiss Hne. unfold create_zip.
  set (w1 := {| files := <[out := ZipArchive []]> (files w); stdout := stdout w |}).
  rewrite (bind_inr _ _ w tt w1) by done.
  rewrite (zip_write_all_app out paths contents (missing :: rest) [] w1).
  - subst w1. simpl. rewrite insert_insert_eq.
    apply bind_inl. unfold read_file. simpl.
    by rewrite lookup_insert_ne, Hmiss by done.
  - eapply Forall2_impl; [exact Hall|]. intros q g [Hq Hqne]. split; [|done].
    subst w1. simpl. by rewrite lookup_insert_ne.
  - subst w1. simpl. apply lookup_insert_eq.
Qed.

End archiver.

Lemma create_zip_archives_by_base_name_witness :
  (create_zip ["in/ab.pdf"; "scan.png"] "out.zip" sample.w0).1 = inr tt
  ∧ (∃ entries,
       files (create_zip ["in/ab.pdf"; "scan.png"] "out.zip" sample.w0).2 !! "out.zip"
       = Some (ZipArchive entries)
       ∧ entries.*1 = os_path.basename <$> ["in/ab.pdf"; "scan.png"]
       ∧ entries.*2 = [Bytes "ab"; Bytes "a"])
  ∧ (∀ p, p ≠ "out.zip" →
       files (create_zip ["in/ab.pdf"; "scan.png"] "out.zip" sample.w0).2 !! p
       = files sample.w0 !! p)
  ∧ stdout (create_zip ["in/ab.pdf"; "scan.png"] "out.zip" sample.w0).2 = stdout sample.w0.
Proof.
  apply (create_zip_archives_by_base_name "out.zip" ["in/ab.pdf"; "scan.png"]
           [Bytes "ab"; Bytes "a"] sample.w0).
  repeat constructor; done.
Defined.

Lemma create_zip_missing_file_witness :
  create_zip (["in/ab.pdf"] ++ "gone.txt" :: ["scan.png"]) "out.zip" sample.w0
  = (inl (FileNotFoundError "gone.txt"),
     {| files := <["out.zip" := ZipArchive
                    (zip_with (λ p f, (os_path.basename p, f)) ["in/ab.pdf"] [Bytes "ab"])]>
                   (files sample.w0);
        stdout := stdout sample.w0 |}).
Proof.
  apply (create_zip_missing_file "out.zip" ["in/ab.pdf"] [Bytes "ab"] "gone.txt"
           ["scan.png"] sample.w0); [repeat constructor; done | done | done].
Defined.

(** ** The cleaner on a file it cannot read (lines 83-86) *)

Section unreadable.

Context {cv : Cv2}.

(** X3: When the image file is missing, or is not something [cv2.imread] can
    decode, the cleaner raises [cv2.error] (from [cvtColor], not a
    file-not-found error) and changes nothing. *)
Theorem clean_and_deskew_unreadable (path : string) (w : world) :
  (∀ data, files w !! path = Some (Bytes data) → imdecode data = None) →
  clean_and_deskew path w = (inl Cv2Error, w).
Proof.
  intros Hn. unfold clean_and_deskew, mbind, io_bind, imread.
  destruct (files w !! path) as [[data|entries]|]; try done.
  by rewrite (Hn data).
Qed.

End unreadable.

Lemma clean_and_deskew_unreadable_witness :
  clean_and_deskew (cv := sample.cv2) "nowhere.png" sample.w0 = (inl Cv2Error, sample.w0).
Proof.
  apply (clean_and_deskew_unreadable (cv := sample.cv2) "nowhere.png" sample.w0).
  intros data Hd. discriminate Hd.
Defined.

(** ** Runs of the pipeline (lines 36-75) *)

Section runs.

Context {cv : Cv2} {host : Host}.

Implicit Types (w : world) (temp out pdf data : string) (images : list Image)
  (texts : list string).

Lemma process_pages_cons_error temp total i (img : Image) images text_files w :
  page_text img = None →
  process_pages temp total i (img :: images) text_files w
  = (inl (page_error img), saved temp total i img w).
Proof.
  intros Hn. simpl.
  rewrite (bind_inr _ _ w tt {| files := files w; stdout := stdout w ++ progress_lines total i 1 |})
    by done.
  rewrite (bind_inr _ _ _ tt (saved temp total i img w)) by done.
  assert (Hread : imread (os_path.join temp (page_file (i + 1) "png")) (saved temp total i img w)
    = (inr (imdecode (png_encode img)), saved temp total i img w)).
  { apply imread_bytes, lookup_insert_eq. }
  unfold page_error. apply page_text_None in Hn as [Hd|(m & Hd & Ht)]; rewrite Hd.
  - apply bind_inl. unfold clean_and_deskew.
    rewrite (bind_inr _ _ _ _ _ Hread), Hd. done.
  - rewrite (bind_inr _ _ _ (clean m) (saved temp total i img w)).
    2:{ unfold clean_and_deskew. by rewrite (bind_inr _ _ _ _ _ Hread), Hd. }
    apply bind_inl. unfold ocr. by rewrite Ht.
Qed.

(** The loop over pages that read well, followed by any further pages. *)
Lemma process_pages_app_ok temp total images texts :
  Forall2 (λ img text, page_text img = Some text) images texts →
  ∀ i text_files w, ∃ w',
    (∀ rest, process_pages temp total i (images ++ rest) text_files w
       = process_pages temp total (i + length images) rest
           (text_files ++ text_paths temp i (length images)) w')
    ∧ stdout w' = stdout w ++ progress_lines total i (length images).
Proof.
  induction 1 as [|img text images texts Ht _ IH]; intros i text_files w.
  - exists w. unfold text_paths, progress_lines. simpl. rewrite !app_nil_r, Nat.add_0_r.
    by split.
  - destruct (IH (i + 1) (text_files ++ [os_path.join temp (page_file (i + 1) "txt")])
                (written temp total i img text w)) as (w' & Hrun & Hout).
    exists w'. split.
    + intros rest. simpl app. rewrite (process_pages_cons_ok _ _ _ _ _ _ _ _ Ht), Hrun.
      simpl length. rewrite text_paths_S, <-app_assoc.
      by replace (i + 1 + length images) with (i + S (length images)) by lia.
    + rewrite Hout. simpl length.
      change (stdout (written temp total i img text w))
        with (stdout w ++ progress_lines total i 1).
      by rewrite (progress_lines_S total i (length images)), <-app_assoc.
Qed.

Lemma bind_frame {A B : Type} (m : IO A) (k : A → IO B) p w :
  files (m w).2 !! p = files w !! p →
  (∀ a w', files (k a w').2 !! p = files w' !! p) →
  files ((m ≫= k) w).2 !! p = files w !! p.
Proof.
  unfold mbind, io_bind. destruct (m w) as [[e|a] w']; simpl; intros H1 H2; [done|].
  by rewrite H2.
Qed.

Lemma bind_print_files {A : Type} (m : IO A) (line : string) w :
  files ((m;; print line) w).2 = files (m w).2.
Proof. unfold mbind, io_bind, print. by destruct (m w) as [[e|a] w']. Qed.

Lemma TemporaryDirectory_files {A : Type} temp (body : IO A) w p :
  files (TemporaryDirectory temp body w).2 !! p
  = if inside temp p then None else files (body w).2 !! p.
Proof. unfold TemporaryDirectory. destruct (body w) as [r w']. apply cleanup_lookup. Qed.

Lemma convert_from_path_world pdf w : (convert_from_path pdf w).2 = w.
Proof. unfold convert_from_path. by repeat case_match. Qed.

Lemma zip_write_all_stdout out : ∀ (paths : list string) entries w,
  stdout (zip_write_all out entries paths w).2 = stdout w.
Proof.
  induction paths as [|q paths IH]; intros entries w; [done|].
  simpl. unfold mbind, io_bind, read_file.
  destruct (files w !! q) as [f|]; [|done]. simpl. by rewrite IH.
Qed.

Lemma create_zip_stdout out (paths : list string) w :
  stdout (create_zip paths out w).2 = stdout w.
Proof. unfold create_zip, mbind, io_bind. simpl. by rewrite zip_write_all_stdout. Qed.

(** X4: Whatever the run does, and however it ends, nothing is left inside the
    temporary directory. *)
Theorem process_pdf_removes_temporary_files temp pdf out w p :
  inside temp p = true → files (process_pdf temp pdf out w).2 !! p = None.
Proof.
  intros Hp. unfold process_pdf.
  by rewrite bind_print_files, TemporaryDirectory_files, Hp.
Qed.

(** X5: Whatever the run does, and however it ends, a file that is neither the
    output file nor inside the temporary directory is left as it was: the
    run never writes beside its output, and the input PDF is never
    modified unless it is itself named as the output. *)
Theorem process_pdf_touches_only_output temp pdf out w p :
  p ≠ out → inside temp p = false →
  files (process_pdf temp pdf out w).2 !! p = files w !! p.
Proof.
  intros Hne Hp. unfold process_pdf.
  rewrite bind_print_files, TemporaryDirectory_files, Hp.
  apply bind_frame; [done|]. intros _ wa.
  apply bind_frame; [by rewrite convert_from_path_world|]. intros images wb.
  apply bind_frame; [by apply process_pages_frame|]. intros paths wc.
  by apply create_zip_frame.
Qed.

(** A run on a PDF whose pages all read well ends normally, wherever the
    output path lies, and prints the conversion line, one progress line for
    each page in page order, and the completion line, in this order. *)
Lemma process_pdf_success temp pdf out w texts :
  pdf_texts w pdf = Some texts →
  (process_pdf temp pdf out w).1 = inr tt
  ∧ stdout (process_pdf temp pdf out w).2
    = stdout w ++ ["Converting PDF: " +:+ pdf]
        ++ progress_lines (length texts) 0 (length texts)
        ++ ["OCR processing complete. Results saved to " +:+ out].
Proof.
  intros Htexts. unfold pdf_texts in Htexts.
  destruct (files w !! pdf) as [[data|]|] eqn:Hf; try done.
  destruct (pdf_pages data) as [images|] eqn:Hp; [|done].
  simpl in Htexts. apply mapM_Some in Htexts.
  pose proof (Forall2_length _ _ _ Htexts) as Hlen.
  set (wa := {| files := files w; stdout := stdout w ++ ["Converting PDF: " +:+ pdf] |}).
  destruct (process_pages_ok temp (length images) images texts Htexts 0 [] wa)
    as (wb & Hrun & _ & Hnew & Hlines).
  pose proof (create_zip_total out (text_paths temp 0 (length images)) wb) as Htotal.
  pose proof (create_zip_stdout out (text_paths temp 0 (length images)) wb) as Hsame.
  destruct (create_zip (text_paths temp 0 (length images)) out wb) as [r wc] eqn:Hzip.
  simpl in Htotal, Hsame.
  assert (r = inr tt) as ->.
  { apply Htotal. apply Forall_forall. intros q Hq. unfold text_paths in Hq.
    apply list_elem_of_fmap in Hq as (k & -> & Hk).
    apply elem_of_seq in Hk.
    destruct (lookup_lt_is_Some_2 texts (k - 1)) as [text Ht]; [lia|].
    exists (Bytes text). specialize (Hnew _ _ Ht).
    by replace (0 + 1 + (k - 1)) with k in Hnew by lia. }
  assert (Hall : process_pdf temp pdf out w
    = (inr tt, {| files := filter (λ kv, inside temp kv.1 = false) (files wc);
                  stdout := stdout wc
                    ++ ["OCR processing complete. Results saved to " +:+ out] |})).
  { unfold process_pdf.
    rewrite (bind_inr _ _ w tt
      {| files := filter (λ kv, inside temp kv.1 = false) (files wc); stdout := stdout wc |});
      [reflexivity|].
    apply TemporaryDirectory_run.
    rewrite (bind_inr _ _ w tt wa) by done.
    rewrite (bind_inr _ _ wa images wa) by by apply (convert_from_path_ok _ data).
    rewrite (bind_inr _ _ wa _ wb Hrun). by rewrite app_nil_l, Hzip. }
  rewrite Hall. split; [done|]. simpl. rewrite Hsame, Hlines. simpl.
  rewrite Hlen. by rewrite <-!app_assoc.
Qed.

(** X6: The run prints the conversion line, then one progress line per page
    in page order, each with the page count, then the completion line. *)
Theorem process_pdf_log temp pdf out w data images texts :
  files w !! pdf = Some (Bytes data) →
  pdf_pages data = Some images →
  mapM page_text images = Some texts →
  stdout (process_pdf temp pdf out w).2
  = stdout w ++ ["Converting PDF: " +:+ pdf]
      ++ ((λ k, "Processing page " +:+ pretty k +:+ "/" +:+ pretty (length images))
            <$> seq 1 (length images))
      ++ ["OCR processing complete. Results saved to " +:+ out].
Proof.
  intros Hf Hp Ht.
  destruct (process_pdf_success temp pdf out w texts (pdf_texts_Some _ _ _ _ _ Hf Hp Ht))
    as [_ ->].
  apply mapM_Some, Forall2_length in Ht. by rewrite <-Ht.
Qed.


Lemma page_error_kind (img : Image) :
  page_error img = Cv2Error ∨ page_error img = TesseractError.
Proof. unfold page_error. destruct (imdecode (png_encode img)); auto. Qed.

Lemma process_pages_fail_kind temp total images : ∀ i text_files w,
  mapM page_text images = None →
  ∃ img, img ∈ images
         ∧ (process_pages temp total i images text_files w).1 = inl (page_error img).
Proof.
  induction images as [|img images IH]; intros i text_files w Hn; [done|].
  destruct (page_text img) as [text|] eqn:Ht.
  - rewrite (process_pages_cons_ok _ _ _ _ _ _ _ _ Ht).
    simpl in Hn. rewrite Ht in Hn. simpl in Hn.
    destruct (IH (i + 1) (text_files ++ [os_path.join temp (page_file (i + 1) "txt")])
                (written temp total i img text w)) as (bad & Hbad & Hrun).
    { by destruct (mapM page_text images). }
    exists bad. split; [by right|done].
  - rewrite (process_pages_cons_error _ _ _ _ _ _ _ Ht).
    exists img. split; [by left|done].
Qed.

Lemma process_pdf_error_kind temp pdf out w e :
  (process_pdf temp pdf out w).1 = inl e →
  e = PDFError ∨ e = Cv2Error ∨ e = TesseractError.
Proof.
  intros He.
  destruct (pdf_texts w pdf) as [texts|] eqn:Htexts.
  { destruct (process_pdf_success temp pdf out w texts Htexts) as [Hok _].
    by rewrite Hok in He. }
  set (wa := {| files := files w; stdout := stdout w ++ ["Converting PDF: " +:+ pdf] |}).
  assert (Hpages : (∀ data, files w !! pdf = Some (Bytes data) → pdf_pages data = None)
    ∨ ∃ data images, files w !! pdf = Some (Bytes data) ∧ pdf_pages data = Some images
        ∧ mapM page_text images = None).
  { unfold pdf_texts in Htexts. destruct (files w !! pdf) as [[data|]|]; [|by left..].
    destruct (pdf_pages data) as [images|] eqn:Hp.
    - right. by exists data, images.
    - left. intros ? [= <-]. done. }
  destruct Hpages as [Hconv|(data & images & Hf & Hp & Hn)].
  - assert (Hrun : process_pdf temp pdf out w
      = (inl PDFError, {| files := filter (λ kv, inside temp kv.1 = false) (files wa);
                          stdout := stdout wa |})).
    { unfold process_pdf. eapply bind_inl. apply TemporaryDirectory_run.
      rewrite (bind_inr _ _ w tt wa) by done.
      apply bind_inl. by apply convert_from_path_fail. }
    rewrite Hrun in He. left. by simplify_eq/=.
  - destruct (process_pages_fail_kind temp (length images) images 0 [] wa Hn)
      as (bad & _ & Hbad).
    destruct (process_pages temp (length images) 0 images [] wa) as [r wb] eqn:Hloop.
    simpl in Hbad. subst r.
    assert (Hrun : process_pdf temp pdf out w
      = (inl (page_error bad), {| files := filter (λ kv, inside temp kv.1 = false) (files wb);
                                  stdout := stdout wb |})).
    { unfold process_pdf. eapply bind_inl. apply TemporaryDirectory_run.
      rewrite (bind_inr _ _ w tt wa) by done.
      rewrite (bind_inr _ _ wa images wa) by by apply (convert_from_path_ok _ data).
      by apply bind_inl. }
    rewrite Hrun in He. right. simpl in He. injection He as <-. apply page_error_kind.
Qed.


(** X9: The loop stops at the first page that does not read well: the run ends
    in that page's exception, having printed the progress lines of the
    pages before it and of the page itself and nothing after; later pages
    are never processed and the completion line is not printed. *)
Theorem first_bad_page_stops_the_run temp pdf out w data good (bad : Image) rest texts :
  files w !! pdf = Some (Bytes data) →
  pdf_pages data = Some (good ++ bad :: rest) →
  mapM page_text good = Some texts →
  page_text bad = None →
  (process_pdf temp pdf out w).1 = inl (page_error bad)
  ∧ stdout (process_pdf temp pdf out w).2
    = stdout w ++ ["Converting PDF: " +:+ pdf]
        ++ ((λ k, "Processing page " +:+ pretty k +:+ "/"
                    +:+ pretty (length (good ++ bad :: rest)))
              <$> seq 1 (length good + 1)).
Proof.
  intros Hf Hp Hgood Hbad. apply mapM_Some in Hgood.
  set (total := length (good ++ bad :: rest)).
  set (wa := {| files := files w; stdout := stdout w ++ ["Converting PDF: " +:+ pdf] |}).
  destruct (process_pages_app_ok temp total good texts Hgood 0 [] wa) as (wb & Hrun & Hlines).
  assert (Hall : process_pdf temp pdf out w
    = (inl (page_error bad),
       {| files := filter (λ kv, inside temp kv.1 = false)
                     (files (saved temp total (0 + length good) bad wb));
          stdout := stdout (saved temp total (0 + length good) bad wb) |})).
  { unfold process_pdf. eapply bind_inl. apply TemporaryDirectory_run.
    rewrite (bind_inr _ _ w tt wa) by done.
    rewrite (bind_inr _ _ wa (good ++ bad :: rest) wa)
      by by apply (convert_from_path_ok _ data).
    apply bind_inl. fold total. rewrite Hrun.
    by apply process_pages_cons_error. }
  rewrite Hall. split; [done|]. simpl. rewrite Hlines. simpl.
  rewrite <-!app_assoc. do 2 f_equal.
  unfold progress_lines. rewrite seq_app, fmap_app. simpl.
  by replace (S (length good)) with (length good + 1) by lia.
Qed.

End runs.

(** ** The script (lines 147-186) *)

Section script.

Context {cv : Cv2} {host : Host}.

Implicit Types (w : world) (temp : string) (args : Namespace).

(** X10: When the engine is installed but the probe of the PDF renderer fails
    with a message that mentions poppler, in any letter case, the script
    prints the error line and the install instruction for the platform
    (Windows, macOS, or else Debian's), exits with status 1 and touches no
    file. *)
Theorem missing_poppler_exits_1 temp args w version e :
  get_tesseract_version = Some version →
  poppler_probe = Some e →
  str.contains "poppler" (str.lower e) = true →
  run temp args w
  = (1%Z,
     {| files := files w;
        stdout := stdout w ++
          ["ERROR: Poppler is not installed (required by pdf2image).";
           if str.startswith "win" sys_platform
           then "Download from: https://github.com/oschwartz10612/poppler-windows/releases"
           else if str.startswith "darwin" sys_platform
           then "Install with: brew install poppler"
           else "Install with: apt-get install poppler-utils"] |}).
Proof.
  intros Hv Hp He. unfold run, main, check_tesseract_installed.
  rewrite Hv, Hp, He. simpl negb. cbv iota.
  rewrite (bind_inr _ _ w tt w) by done.
  unfold mbind, io_bind, print, sys_exit, raise. simpl.
  destruct (str.startswith "win" sys_platform); [simpl; by rewrite <-app_assoc|].
  destruct (str.startswith "darwin" sys_platform); simpl; by rewrite <-app_assoc.
Qed.

(** X11: With both dependencies in place, a PDF whose pages all read well and an
    output path outside the temporary directory, the script exits with
    status 0 and the archive of the page texts is at the resolved output
    path: the path given with [--output], or the default. *)
Theorem run_archives_at_output_path temp args w version data images texts :
  get_tesseract_version = Some version →
  (∀ e, poppler_probe = Some e → str.contains "poppler" (str.lower e) = false) →
  files w !! pdf_path args = Some (Bytes data) →
  pdf_pages data = Some images →
  mapM page_text images = Some texts →
  inside temp (output_path args) = false →
  (run temp args w).1 = 0%Z
  ∧ files (run temp args w).2 !! output_path args = Some (ZipArchive (page_entries texts)).
Proof.
  intros Hv Hprobe Hf Hp Ht Hout. unfold run.
  rewrite (main_after_preflight temp args w version Hv Hprobe).
  destruct (process_pdf_ok temp (pdf_path args) (output_path args) w texts
              (pdf_texts_Some _ _ _ _ _ Hf Hp Ht) Hout) as (w' & -> & Hzip & _).
  done.
Qed.

(** X12: With both dependencies in place, a run that fails (the PDF does not
    convert or a page does not read well) exits with status 1 and leaves
    every file outside the temporary directory, the output path included,
    as it was. *)
Theorem run_failure_exits_1 temp args w version :
  get_tesseract_version = Some version →
  (∀ e, poppler_probe = Some e → str.contains "poppler" (str.lower e) = false) →
  pdf_texts w (pdf_path args) = None →
  (run temp args w).1 = 1%Z
  ∧ ∀ p, inside temp p = false → files (run temp args w).2 !! p = files w !! p.
Proof.
  intros Hv Hprobe Hn. unfold run.
  rewrite (main_after_preflight temp args w version Hv Hprobe).
  destruct (process_pdf_fail temp (pdf_path args) (output_path args) w Hn)
    as (e & w' & Hrun & Hfiles).
  pose proof (process_pdf_error_kind temp (pdf_path args) (output_path args) w e) as Hk.
  rewrite Hrun in Hk |- *. simpl in Hk |- *. split.
  - by destruct (Hk eq_refl) as [->|[->| ->]].
  - intros p Hp. by rewrite Hfiles, Hp.
Qed.

End script.

Lemma process_pdf_removes_temporary_files_witness :
  files (process_pdf (host := sample.installed) sample.tmp "in/ab.pdf" "out.zip" sample.w0).2
    !! "/tmp/tmpk3x9/page_1.txt" = None.
Proof.
  apply (process_pdf_removes_temporary_files (host := sample.installed)
           sample.tmp "in/ab.pdf" "out.zip" sample.w0 "/tmp/tmpk3x9/page_1.txt").
  reflexivity.
Defined.

Lemma process_pdf_touches_only_output_witness :
  files (process_pdf (host := sample.installed) sample.tmp "in/ab.pdf" "out.zip" sample.w0).2
    !! "in/ab.pdf" = files sample.w0 !! "in/ab.pdf".
Proof.
  apply (process_pdf_touches_only_output (host := sample.installed)
           sample.tmp "in/ab.pdf" "out.zip" sample.w0 "in/ab.pdf"); [done|reflexivity].
Defined.

Lemma process_pdf_log_witness :
  stdout (process_pdf (host := sample.installed) sample.tmp "in/ab.pdf" "out.zip" sample.w0).2
  = stdout sample.w0 ++ ["Converting PDF: " +:+ "in/ab.pdf"]
      ++ ((λ k, "Processing page " +:+ pretty k +:+ "/" +:+ pretty (length ["a"; "b"]%char))
            <$> seq 1 (length ["a"; "b"]%char))
      ++ ["OCR processing complete. Results saved to " +:+ "out.zip"].
Proof.
  apply (process_pdf_log (host := sample.installed)
           sample.tmp "in/ab.pdf" "out.zip" sample.w0 "ab" ["a"; "b"]%char ["a"; "b"]);
    reflexivity.
Defined.


Lemma first_bad_page_stops_the_run_witness :
  (process_pdf (host := sample.installed) sample.tmp "in/bad.pdf" "out.zip" sample.w0).1
  = inl (page_error (host := sample.installed) "!"%char)
  ∧ stdout (process_pdf (host := sample.installed) sample.tmp "in/bad.pdf" "out.zip"
              sample.w0).2
    = stdout sample.w0 ++ ["Converting PDF: " +:+ "in/bad.pdf"]
        ++ ((λ k, "Processing page " +:+ pretty k +:+ "/"
                    +:+ pretty (length (["a"%char] ++ "!"%char :: ["b"%char])))
              <$> seq 1 (length ["a"%char] + 1)).
Proof.
  apply (first_bad_page_stops_the_run (host := sample.installed)
           sample.tmp "in/bad.pdf" "out.zip" sample.w0 "a!b" ["a"%char] "!"%char ["b"%char]
           ["a"]);
    reflexivity.
Defined.

Lemma missing_poppler_exits_1_witness :
  run (host := sample_without_poppler.host "darwin") sample.tmp sample.args sample.w0
  = (1%Z,
     {| files := files sample.w0;
        stdout := stdout sample.w0 ++
          ["ERROR: Poppler is not installed (required by pdf2image).";
           "Install with: brew install poppler"] |}).
Proof.
  apply (missing_poppler_exits_1 (host := sample_without_poppler.host "darwin")
           sample.tmp sample.args sample.w0 "5.3.0"
           "Unable to get page count. Is Poppler installed and in PATH?");
    reflexivity.
Defined.

Lemma run_archives_at_output_path_witness :
  (run (host := sample.installed) sample.tmp sample.args sample.w0).1 = 0%Z
  ∧ files (run (host := sample.installed) sample.tmp sample.args sample.w0).2
      !! output_path sample.args
    = Some (ZipArchive (page_entries ["a"; "b"])).
Proof.
  apply (run_archives_at_output_path (host := sample.installed)
           sample.tmp sample.args sample.w0 "5.3.0" "ab" ["a"; "b"]%char ["a"; "b"]);
    try reflexivity.
  intros e [= <-]. reflexivity.
Defined.

Lemma run_failure_exits_1_witness :
  (run (host := sample.installed) sample.tmp
     {| pdf_path := "in/bad.pdf"; output := Some "out.zip" |} sample.w0).1 = 1%Z
  ∧ ∀ p, inside sample.tmp p = false →
      files (run (host := sample.installed) sample.tmp
               {| pdf_path := "in/bad.pdf"; output := Some "out.zip" |} sample.w0).2 !! p
      = files sample.w0 !! p.
Proof.
  apply (run_failure_exits_1 (host := sample.installed) sample.tmp
           {| pdf_path := "in/bad.pdf"; output := Some "out.zip" |} sample.w0 "5.3.0");
    try reflexivity.
  intros e [= <-]. reflexivity.
Defined.

(** ** Paths (lines 57, 67, 134 and 181-183) *)

Section paths.

Implicit Types (c : ascii) (s d nm : string).

Lemma split_pieces_no_sep c s : Forall (λ x, str.has_char c x = false) (str.split c s).
Proof.
  induction s as [|a r IH]; simpl; [by repeat constructor|].
  case_decide as Ha; [by constructor|].
  pose proof (split_nonempty c r) as Hne.
  destruct (str.split c r) as [|h t]; [done|].
  apply Forall_cons in IH as [Hh Ht]. constructor; [|done].
  rewrite has_char_cons. by case_decide.
Qed.

Lemma last_Forall {A : Type} (P : A → Prop) (l : list A) (x : A) :
  Forall P l → P x → P (List.last l x).
Proof.
  induction 1 as [|y l Hy Hl IH]; intros Hx; [done|].
  simpl. destruct l; [done|]. by apply IH.
Qed.

Lemma name_no_sep s : str.has_char os_path.sep (pathlib.name s) = false.
Proof.
  unfold pathlib.name, pathlib.parts. apply last_Forall; [|done].
  apply Forall_forall. intros x [_ Hx]%list_elem_of_filter.
  revert x Hx. apply Forall_forall, split_pieces_no_sep.
Qed.

Lemma upto_no_char c s : ∀ i,
  str.has_char c s = false → str.has_char c (str.upto i s) = false.
Proof.
  unfold str.upto. induction s as [|a r IH]; intros [|i]; simpl; try done.
  case_decide; [done|]. apply IH.
Qed.

Lemma stem_no_sep s : str.has_char os_path.sep (pathlib.stem s) = false.
Proof.
  unfold pathlib.stem. pose proof (name_no_sep s) as Hn.
  destruct (str.rfind "." (pathlib.name s)) as [i|]; [|done].
  destruct (_ && _); [|done]. by apply upto_no_char.
Qed.

(** X13: The default output path never has a directory part, whatever the input
    path: it contains no separator, so it is its own base name and the
    archive is written to the current directory. *)
Theorem default_output_has_no_directory (p : string) :
  str.has_char os_path.sep (output_path {| pdf_path := p; output := None |}) = false
  ∧ os_path.basename (output_path {| pdf_path := p; output := None |})
    = output_path {| pdf_path := p; output := None |}.
Proof.
  assert (Hsep : str.has_char os_path.sep
                   (output_path {| pdf_path := p; output := None |}) = false).
  { unfold output_path. simpl. rewrite has_char_app, stem_no_sep. done. }
  split; [done|]. unfold os_path.basename. by rewrite rfind_no_char.
Qed.

(** X14: An input whose file name has no dot has no extension to drop: the
    default output is the whole file name followed by [_ocr.zip]. *)
Theorem default_output_without_extension (pre nm : string) :
  pre = EmptyString ∨ str.endswith os_path.sep pre = true →
  nm ≠ EmptyString → str.has_char os_path.sep nm = false →
  str.has_char "." nm = false →
  output_path {| pdf_path := pre +:+ nm; output := None |} = nm +:+ "_ocr.zip".
Proof.
  intros Hpre Hne Hsep Hdot. unfold output_path. simpl. f_equal.
  assert (Hnd : nm ≠ ".") by (intros ->; done).
  assert (Hname : pathlib.name (pre +:+ nm) = nm).
  { destruct Hpre as [->|Hend]; [by apply name_plain|].
    destruct (endswith_snoc _ _ Hend) as [d ->]. rewrite append_assoc.
    change (String os_path.sep "" +:+ nm) with (String os_path.sep nm).
    by apply name_snoc. }
  unfold pathlib.stem. rewrite Hname. by rewrite rfind_no_char.
Qed.

(** X15: A hidden file, whose only dot is the leading one, keeps its whole name:
    the leading dot does not start an extension. *)
Theorem default_output_of_hidden_file (pre nm : string) :
  pre = EmptyString ∨ str.endswith os_path.sep pre = true →
  nm ≠ EmptyString → str.has_char os_path.sep nm = false →
  str.has_char "." nm = false →
  output_path {| pdf_path := pre +:+ String "." nm; output := None |}
  = String "." nm +:+ "_ocr.zip".
Proof.
  intros Hpre Hne Hsep Hdot. unfold output_path. simpl. f_equal.
  assert (Hname : pathlib.name (pre +:+ String "." nm) = String "." nm).
  { assert (Hs : str.has_char os_path.sep (String "." nm) = false) by done.
    assert (Hd : String "." nm ≠ ".") by (by destruct nm).
    destruct Hpre as [->|Hend]; [by apply name_plain|].
    destruct (endswith_snoc _ _ Hend) as [d ->]. rewrite append_assoc.
    change (String os_path.sep "" +:+ String "." nm)
      with (String os_path.sep (String "." nm)).
    by apply name_snoc. }
  unfold pathlib.stem. rewrite Hname.
  change (String "." nm) with (EmptyString +:+ String "." nm) at 1.
  by rewrite rfind_snoc.
Qed.

(** X16: Joining a directory and a name without separators, then taking the base
    name, gives the name back, whatever the directory (empty, with or
    without a trailing separator): an archive entry is named as the file
    was when it was created in the temporary directory. *)
Theorem basename_join_name (d nm : string) :
  str.has_char os_path.sep nm = false →
  os_path.basename (os_path.join d nm) = nm.
Proof.
  intros Hsep. destruct nm as [|c s].
  - destruct (join_empty_cases d) as [->|Hend]; [done|].
    rewrite <-(append_nil_r (os_path.join d EmptyString)).
    by apply basename_append; [right|].
  - assert (Hc : c ≠ os_path.sep).
    { intros ->. rewrite has_char_cons in Hsep. by rewrite decide_True in Hsep. }
    rewrite join_relative by done.
    apply basename_append; [apply join_empty_cases|done].
Qed.

End paths.

Lemma default_output_without_extension_witness :
  output_path {| pdf_path := "scans/" +:+ "report"; output := None |}
  = "report" +:+ "_ocr.zip".
Proof.
  apply (default_output_without_extension "scans/" "report"); first [by right | done].
Defined.

Lemma default_output_of_hidden_file_witness :
  output_path {| pdf_path := "scans/" +:+ String "." "draft"; output := None |}
  = String "." "draft" +:+ "_ocr.zip".
Proof.
  apply (default_output_of_hidden_file "scans/" "draft"); first [by right | done].
Defined.

Lemma basename_join_name_witness :
  os_path.basename (os_path.join "/tmp/tmpk3x9/" "page_12.txt") = "page_12.txt".
Proof. apply (basename_join_name "/tmp/tmpk3x9/" "page_12.txt"). reflexivity. Defined.

(** ** Package bootstrap (lines 10-26) *)

Section bootstrap_properties.

Import bootstrap.

Variable pip : string → gset string → bool * gset string.

Implicit Types (e : env) (packages : list (string * string)).

Lemma install_missing_present packages e :
  Forall (λ mp, mp.1 ∈ modules e) packages →
  install_missing pip packages e = (Returned, e).
Proof.
  induction 1 as [|[m pkg] packages Hm _ IH]; [done|].
  simpl in *. by rewrite decide_True.
Qed.

(** X17: When the four modules can already be imported, the bootstrap installs
    nothing, prints nothing and returns: a second start of the program does
    not run the installer again. *)
Theorem bootstrap_skips_present_packages e :
  (∀ m, m ∈ required_packages.*1 → m ∈ modules e) →
  check_and_install_packages pip e = (Returned, e).
Proof.
  intros Hall. apply install_missing_present.
  apply Forall_forall. intros [m pkg] Hin. apply Hall.
  apply list_elem_of_fmap. by exists (m, pkg).
Qed.

Lemma install_missing_installs packages : ∀ e,
  (∀ m pkg ms, (m, pkg) ∈ packages → m ∉ ms →
     ∃ ms', pip pkg ms = (true, ms') ∧ (m ∈ ms') ∧ (ms ⊆ ms')) →
  ∃ e', install_missing pip packages e = (Returned, e')
    ∧ modules e ⊆ modules e'
    ∧ (∀ m, m ∈ packages.*1 → m ∈ modules e')
    ∧ ∃ lines, printed e' = printed e ++ lines
        ∧ Forall (λ line, ∃ m pkg, (m, pkg) ∈ packages ∧ (m ∉ modules e)
                    ∧ line = "Installing required package: " +:+ pkg) lines.
Proof.
  induction packages as [|[m pkg] packages IH]; intros e Hpip.
  - exists e. split; [done|]. split; [done|]. split; [by intros m []%elem_of_nil|].
    exists []. by rewrite app_nil_r.
  - assert (Hrest : ∀ m' pkg' ms, (m', pkg') ∈ packages → m' ∉ ms →
        ∃ ms', pip pkg' ms = (true, ms') ∧ (m' ∈ ms') ∧ (ms ⊆ ms')).
    { intros m' pkg' ms Hin. apply Hpip. by right. }
    simpl. case_decide as Hm.
    + destruct (IH e Hrest) as (e' & -> & Hsub & Hall & lines & Hlines & Hfor).
      exists e'. split; [done|]. split; [done|]. split.
      * intros m' [->|Hin]%elem_of_cons; [by apply Hsub|by apply Hall].
      * exists lines. split; [done|]. eapply Forall_impl; [exact Hfor|].
        intros line (m' & pkg' & Hin & Hnot & ->). exists m', pkg'. split; [by right|done].
    + destruct (Hpip m pkg (modules e)) as (ms' & -> & Hin' & Hsub'); [by left|done|].
      set (e1 := {| modules := ms';
                    printed := printed e ++ ["Installing required package: " +:+ pkg] |}).
      destruct (IH e1 Hrest) as (e' & -> & Hsub & Hall & lines & Hlines & Hfor).
      exists e'. split; [done|]. split; [by etrans|]. split.
      * intros m' [->|Hin]%elem_of_cons; [by apply Hsub|by apply Hall].
      * exists (("Installing required package: " +:+ pkg) :: lines). split.
        { rewrite Hlines. simpl. by rewrite <-app_assoc. }
        constructor; [exists m, pkg; split; [by left|done]|].
        eapply Forall_impl; [exact Hfor|].
        intros line (m' & pkg' & Hin & Hnot & ->). exists m', pkg'.
        split; [by right|]. split; [|done]. intros Hold. apply Hnot. by apply Hsub'.
Qed.

(** X18: When the installer succeeds for a missing package, providing its module
    and removing none, the bootstrap returns with the four modules
    importable and every module importable before still so; it prints an
    announcement only for packages whose module was missing at the start. *)
Theorem bootstrap_installs_missing_packages e :
  (∀ m pkg ms, (m, pkg) ∈ required_packages → m ∉ ms →
     ∃ ms', pip pkg ms = (true, ms') ∧ (m ∈ ms') ∧ (ms ⊆ ms')) →
  ∃ e', check_and_install_packages pip e = (Returned, e')
    ∧ modules e ⊆ modules e'
    ∧ (∀ m, m ∈ required_packages.*1 → m ∈ modules e')
    ∧ ∃ lines, printed e' = printed e ++ lines
        ∧ Forall (λ line, ∃ m pkg, (m, pkg) ∈ required_packages ∧ (m ∉ modules e)
                    ∧ line = "Installing required package: " +:+ pkg) lines.
Proof. apply install_missing_installs. Qed.

Lemma install_missing_failure packages : ∀ before m pkg after e ms,
  packages = before ++ (m, pkg) :: after →
  Forall (λ mp, mp.1 ∈ modules e) before →
  m ∉ modules e →
  pip pkg (modules e) = (false, ms) →
  install_missing pip packages e
  = (CalledProcessError pkg,
     {| modules := ms;
        printed := printed e ++ ["Installing required package: " +:+ pkg] |}).
Proof.
  intros before m pkg after e ms -> Hbefore Hm Hpip.
  induction Hbefore as [|[m' pkg'] before Hm' _ IH]; simpl.
  - by rewrite decide_False, Hpip by done.
  - simpl in Hm'. by rewrite decide_True.
Qed.

(** X19: When the installer fails for the first missing package, the bootstrap
    stops there with [CalledProcessError], having announced that package
    only: the packages after it in the dict are neither announced nor
    installed. *)
Theorem bootstrap_stops_at_failed_install before m pkg after e ms :
  required_packages = before ++ (m, pkg) :: after →
  Forall (λ mp, mp.1 ∈ modules e) before →
  m ∉ modules e →
  pip pkg (modules e) = (false, ms) →
  check_and_install_packages pip e
  = (CalledProcessError pkg,
     {| modules := ms;
        printed := printed e ++ ["Installing required package: " +:+ pkg] |}).
Proof. intros. by eapply install_missing_failure. Qed.

End bootstrap_properties.

Lemma bootstrap_skips_present_packages_witness :
  bootstrap.check_and_install_packages bootstrap.offline_pip
    {| bootstrap.modules := {[ "pytesseract"; "cv2"; "pdf2image"; "PIL"; "numpy" ]};
       bootstrap.printed := [] |}
  = (bootstrap.Returned,
     {| bootstrap.modules := {[ "pytesseract"; "cv2"; "pdf2image"; "PIL"; "numpy" ]};
        bootstrap.printed := [] |}).
Proof.
  apply (bootstrap_skips_present_packages bootstrap.offline_pip).
  intros m Hm. simpl in Hm.
  repeat (apply elem_of_cons in Hm as [->|Hm]); [..|by apply elem_of_nil in Hm];
    apply (bool_decide_unpack _); vm_compute; exact I.
Defined.

Lemma bootstrap_installs_missing_packages_witness :
  ∃ e', bootstrap.check_and_install_packages bootstrap.sample_pip
          {| bootstrap.modules := {[ "cv2" ]}; bootstrap.printed := [] |}
        = (bootstrap.Returned, e')
    ∧ bootstrap.modules {| bootstrap.modules := {[ "cv2" ]}; bootstrap.printed := [] |}
      ⊆ bootstrap.modules e'
    ∧ (∀ m, m ∈ bootstrap.required_packages.*1 → m ∈ bootstrap.modules e')
    ∧ ∃ lines,
        bootstrap.printed e'
        = bootstrap.printed {| bootstrap.modules := {[ "cv2" ]}; bootstrap.printed := [] |}
          ++ lines
        ∧ Forall (λ line, ∃ m pkg, (m, pkg) ∈ bootstrap.required_packages
                    ∧ (m ∉ bootstrap.modules
                             {| bootstrap.modules := {[ "cv2" ]}; bootstrap.printed := [] |})
                    ∧ line = "Installing required package: " +:+ pkg) lines.
Proof.
  apply (bootstrap_installs_missing_packages bootstrap.sample_pip).
  intros m pkg ms Hin _. eexists. split; [reflexivity|].
  split; [|apply union_subseteq_l]. apply elem_of_union_r.
  unfold bootstrap.required_packages in Hin.
  repeat (apply elem_of_cons in Hin as [[= -> ->]|Hin]); [..|by apply elem_of_nil in Hin];
    apply (bool_decide_unpack _); vm_compute; exact I.
Defined.

Lemma bootstrap_stops_at_failed_install_witness :
  bootstrap.check_and_install_packages bootstrap.offline_pip
    {| bootstrap.modules := {[ "pytesseract" ]}; bootstrap.printed := [] |}
  = (bootstrap.CalledProcessError "opencv-python",
     {| bootstrap.modules := {[ "pytesseract" ]};
        bootstrap.printed := [] ++ ["Installing required package: " +:+ "opencv-python"] |}).
Proof.
  apply (bootstrap_stops_at_failed_install bootstrap.offline_pip
           [("pytesseract", "pytesseract")] "cv2" "opencv-python"
           [("pdf2image", "pdf2image"); ("PIL", "Pillow")]).
  - reflexivity.
  - constructor; [|constructor]. apply (bool_decide_unpack _). vm_compute. exact I.
  - apply (bool_decide_unpack _). vm_compute. exact I.
  - reflexivity.
Defined.

(** ** The largest contour (line 96) *)

Ltac order_hyps :=
  repeat match goal with
  | H : CompOpp _ = _ |- _ =>
      apply (f_equal CompOpp) in H; rewrite CompOpp_involutive in H; simpl in H
  | H : Pos.compare_cont Eq ?a ?b = Lt |- _ => progress change (a < b)%positive in H
  | H : Pos.compare_cont Eq ?a ?b = Gt |- _ => progress change (a > b)%positive in H
  | H : Pos.compare_cont Eq ?a ?b = Eq |- _ => apply Pos.compare_eq_iff in H
  | H : (?a ?= ?b)%Z = Lt |- _ => progress change (a < b)%Z in H
  | H : (?a ?= ?b)%Z = Gt |- _ => progress change (a > b)%Z in H
  | H : (?a ?= ?b)%Z = Eq |- _ => apply Z.compare_eq_iff in H
  end.

Section largest.

Context {A : Type} (key : A → float).

(** X20: [max] returns one of the elements it is given: the contour whose
    rectangle gives the deskew angle is one of the contours found. *)
Theorem max_by_is_an_element (first : A) (rest : list A) :
  max_by key first rest ∈ first :: rest.
Proof.
  revert first. induction rest as [|x rest IH]; intros first; simpl; [by left|].
  destruct (key first <? key x)%float.
  - right. apply IH.
  - specialize (IH first). apply elem_of_cons in IH as [->|Hin]; [by left|by do 2 right].
Qed.

(** Comparisons of binary64 numbers, read off their specification. *)
Lemma SFltb_above (a b c : spec_float) :
  SFltb a b = true → SFltb a c = false → SFltb b c = false.
Proof.
  unfold SFltb, SFcompare.
  destruct a as [sa|sa| |sa ma ea], b as [sb|sb| |sb mb eb], c as [sc|sc| |sc mc ec];
    try done; repeat (case_match; try done); subst; simplify_eq/=;
    order_hyps; lia.
Qed.

Lemma SFltb_trans (a b c : spec_float) :
  SFltb a b = true → SFltb b c = true → SFltb a c = true.
Proof.
  unfold SFltb, SFcompare.
  destruct a as [sa|sa| |sa ma ea], b as [sb|sb| |sb mb eb], c as [sc|sc| |sc mc ec];
    try done; repeat (case_match; try done); subst; simplify_eq/=;
    order_hyps; lia.
Qed.

Lemma SFltb_irrefl (a : spec_float) : SFltb a a = false.
Proof.
  unfold SFltb, SFcompare. destruct a as [s|s| |s m e]; try done.
  - by destruct s.
  - destruct s; rewrite Z.compare_refl; simpl;
      change (Pos.compare_cont Eq m m) with (m ?= m)%positive;
      by rewrite Pos.compare_refl.
Qed.

Lemma ltb_above (a b c : float) :
  (a <? b)%float = true → (a <? c)%float = false → (b <? c)%float = false.
Proof. rewrite !ltb_spec. apply SFltb_above. Qed.

Lemma ltb_trans (a b c : float) :
  (a <? b)%float = true → (b <? c)%float = true → (a <? c)%float = true.
Proof. rewrite !ltb_spec. apply SFltb_trans. Qed.

Lemma ltb_irrefl (a : float) : (a <? a)%float = false.
Proof. rewrite ltb_spec. apply SFltb_irrefl. Qed.

Lemma max_by_first_or_above (rest : list A) : ∀ first,
  max_by key first rest = first
  ∨ (key first <? key (max_by key first rest))%float = true.
Proof.
  induction rest as [|y rest IH]; intros first; simpl; [by left|].
  destruct (key first <? key y)%float eqn:Hlt; [|apply IH].
  right. destruct (IH y) as [->|Hy]; [done|]. by eapply ltb_trans.
Qed.

(** X21: No element has a key above the key of the element [max] returns: no
    contour found has a larger area than the one used for the deskew angle
    (areas that are not numbers compare as not larger). *)
Theorem max_by_is_maximal (first : A) (rest : list A) (x : A) :
  x ∈ first :: rest →
  (key (max_by key first rest) <? key x)%float = false.
Proof.
  revert first. induction rest as [|y rest IH]; intros first Hx.
  - apply list_elem_of_singleton in Hx as ->. apply ltb_irrefl.
  - simpl. destruct (key first <? key y)%float eqn:Hlt.
    + apply elem_of_cons in Hx as [->|Hx]; [|by apply IH].
      assert (Hback : (key y <? key first)%float = false).
      { eapply ltb_above; [exact Hlt|apply ltb_irrefl]. }
      destruct (max_by_first_or_above rest y) as [->|Hy]; [done|].
      by eapply ltb_above.
    + apply elem_of_cons in Hx as [->|[->|Hx]%elem_of_cons].
      * apply IH. by left.
      * destruct (max_by_first_or_above rest first) as [->|Hf]; [done|].
        by eapply ltb_above.
      * apply IH. by right.
Qed.

(** X22: When no later element has a key above the first element's, [max]
    returns the first element: among contours of equal largest area the one
    found first is used. *)
Theorem max_by_keeps_first_on_ties (first : A) (rest : list A) :
  (∀ x, x ∈ rest → (key first <? key x)%float = false) →
  max_by key first rest = first.
Proof.
  induction rest as [|x rest IH]; intros Hall; simpl; [done|].
  rewrite (Hall x) by by left. apply IH. intros y Hy. apply Hall. by right.
Qed.

End largest.

Lemma max_by_keeps_first_on_ties_witness :
  max_by (λ c : list Z, if (length c <? 2)%nat then 1%float else 4%float)
    [10; 11]%Z [[20%Z]; [30; 31]%Z]
  = [10; 11]%Z.
Proof.
  apply (max_by_keeps_first_on_ties
           (λ c : list Z, if (length c <? 2)%nat then 1%float else 4%float)).
  intros x Hx.
  repeat (apply elem_of_cons in Hx as [->|Hx]); [..|by apply elem_of_nil in Hx];
    reflexivity.
Defined.

Lemma max_by_is_maximal_witness :
  ((λ c : list Z, if (length c <? 2)%nat then 1%float else 4%float)
     (max_by (λ c : list Z, if (length c <? 2)%nat then 1%float else 4%float)
        [20%Z] [[30; 31]%Z; [40%Z]])
   <? (λ c : list Z, if (length c <? 2)%nat then 1%float else 4%float) [40%Z])%float
  = false.
Proof.
  apply (max_by_is_maximal
           (λ c : list Z, if (length c <? 2)%nat then 1%float else 4%float)
           [20%Z] [[30; 31]%Z; [40%Z]] [40%Z]).
  by do 2 right; left.
Defined.

(** ** The rotation threshold (line 107) *)

Lemma abs_opp (a : float) : abs (- a)%float = abs a.
Proof.
  rewrite <-(SF2Prim_Prim2SF (abs (- a))), <-(SF2Prim_Prim2SF (abs a)).
  rewrite !abs_spec, opp_spec. by destruct (Prim2SF a).
Qed.

(** X23: The threshold looks at the size of the angle only: a tilt and the
    opposite tilt are either both corrected or both left alone. *)
Theorem significant_ignores_sign (a : float) :
  significant (- a)%float = significant a.
Proof. unfold significant. by rewrite abs_opp. Qed.

(** ** Runs that meet their own files (lines 36-75) *)

Section reruns.

Context {cv : Cv2} {host : Host}.

Implicit Types (w : world) (temp out pdf : string) (texts : list string).

(** X24: The input path is not protected: when the output path is the input
    path itself, a successful run replaces the PDF by the archive of its
    page texts. *)
Theorem output_over_input_replaces_the_pdf temp pdf w texts :
  pdf_texts w pdf = Some texts →
  inside temp pdf = false →
  (process_pdf temp pdf pdf w).1 = inr tt
  ∧ files (process_pdf temp pdf pdf w).2 !! pdf = Some (ZipArchive (page_entries texts)).
Proof.
  intros Ht Hin.
  by destruct (process_pdf_ok temp pdf pdf w texts Ht Hin) as (w' & -> & Hzip & _).
Qed.

(** X25: Running the program again on the same input and output paths, in a new
    temporary directory, ends normally again and leaves the same archive:
    the first run changed nothing the second one reads, and the archive is
    rewritten, not extended. *)
Theorem second_run_rewrites_the_same_archive temp temp' pdf out w texts :
  pdf_texts w pdf = Some texts →
  out ≠ pdf →
  inside temp pdf = false → inside temp out = false → inside temp' out = false →
  (process_pdf temp' pdf out (process_pdf temp pdf out w).2).1 = inr tt
  ∧ files (process_pdf temp' pdf out (process_pdf temp pdf out w).2).2 !! out
    = files (process_pdf temp pdf out w).2 !! out.
Proof.
  intros Ht Hne Hpdf Hout Hout'.
  destruct (process_pdf_ok temp pdf out w texts Ht Hout) as (w1 & -> & Hzip & Hother & _).
  simpl.
  assert (Ht1 : pdf_texts w1 pdf = Some texts).
  { unfold pdf_texts in *. rewrite Hother by done. by rewrite Hpdf. }
  destruct (process_pdf_ok temp' pdf out w1 texts Ht1 Hout') as (w2 & -> & Hzip2 & _).
  simpl. by rewrite Hzip, Hzip2.
Qed.

End reruns.

Lemma output_over_input_replaces_the_pdf_witness :
  (process_pdf (host := sample.installed) sample.tmp "in/ab.pdf" "in/ab.pdf" sample.w0).1
  = inr tt
  ∧ files (process_pdf (host := sample.installed) sample.tmp "in/ab.pdf" "in/ab.pdf"
             sample.w0).2 !! "in/ab.pdf"
    = Some (ZipArchive (page_entries ["a"; "b"])).
Proof.
  apply (output_over_input_replaces_the_pdf (host := sample.installed)
           sample.tmp "in/ab.pdf" sample.w0 ["a"; "b"]); reflexivity.
Defined.

Lemma second_run_rewrites_the_same_archive_witness :
  (process_pdf (host := sample.installed) "/tmp/tmpq7w2" "in/ab.pdf" "out.zip"
     (process_pdf (host := sample.installed) sample.tmp "in/ab.pdf" "out.zip" sample.w0).2).1
  = inr tt
  ∧ files (process_pdf (host := sample.installed) "/tmp/tmpq7w2" "in/ab.pdf" "out.zip"
             (process_pdf (host := sample.installed) sample.tmp "in/ab.pdf" "out.zip"
                sample.w0).2).2 !! "out.zip"
    = files (process_pdf (host := sample.installed) sample.tmp "in/ab.pdf" "out.zip"
               sample.w0).2 !! "out.zip".
Proof.
  apply (second_run_rewrites_the_same_archive (host := sample.installed)
           sample.tmp "/tmp/tmpq7w2" "in/ab.pdf" "out.zip" sample.w0 ["a"; "b"]);
    first [reflexivity | done].
Defined.
